(** * Market-structure analyser: concentration metrics, structure
      classification and equilibrium solvers
      (shallow embedding of [analisis_mercado3_final.py])

    Numbers.  Python [int] values are [Z].  Python and numpy [float]
    values are modelled as exact rationals [Q], and a decimal literal such
    as [0.9] is the rational it spells: every formula of the program is
    read in exact arithmetic, and the theorems below are statements about
    that reading.  Rounding, overflow and the special values of binary64
    are not part of the model.  What the model keeps of Python's
    arithmetic is its failure mode: the true division [x / y] of two
    Python numbers raises [ZeroDivisionError] when [y] is zero, whereas
    the element-wise division of a pandas series never raises.

    What rounding does to lines 11-19 is shown on a second reading of
    these lines, in IEEE 754 binary64 (module [Binary64]).

    Tables.  A [pandas.DataFrame] is the list of its rows, restricted to
    the two columns the analysis reads; both columns hold strings. *)

From Stdlib Require Import List String Ascii Bool ZArith QArith Qabs.
From Stdlib Require Import Lia Lqa Psatz Permutation Sorted Morphisms.
From Stdlib Require OrderedTypeEx SpecFloat.
Import ListNotations.

Local Open Scope Z_scope.
Local Open Scope Q_scope.

(* ------------------------------------------------------------------ *)
(** ** Exceptions and the result of a call *)

Inductive exn : Type :=
| ZeroDivisionError
| KeyError (key : string).

Inductive outcome (A : Type) : Type :=
| Returns (a : A)
| Raises (e : exn).

Arguments Returns {A} a.
Arguments Raises {A} e.

Definition bind {A B : Type} (m : outcome A) (k : A -> outcome B) : outcome B :=
  match m with
  | Returns a => k a
  | Raises e => Raises e
  end.

Notation "x <- m ;; k" := (bind m (fun x => k))
  (at level 61, m at next level, right associativity).
Notation "' p <- m ;; k" := (bind m (fun x => let p := x in k))
  (at level 61, p pattern, m at next level, right associativity).

Definition returns {A : Type} (m : outcome A) : Prop :=
  exists a, m = Returns a.

(* ------------------------------------------------------------------ *)
(** ** Python and numpy arithmetic *)

(** [x > y] on numbers. *)
Definition Qgt_bool (x y : Q) : bool := negb (Qle_bool x y).

(** Python's [x / y] on floats (an [int] operand is converted first). *)
Definition py_div (x y : Q) : outcome Q :=
  if Qeq_bool y 0 then Raises ZeroDivisionError else Returns (x / y).

(** The builtin [sum(xs)]: a left fold that starts from [0]. *)
Definition sum (xs : list Q) : Q := fold_left Qplus xs 0.

(** [Series.sum()] of an integer series. *)
Definition series_sum (xs : list Z) : Z := fold_left Z.add xs 0%Z.

(** numpy's element-wise true division of an integer series by an integer.
    It never raises.  (A zero divisor would give [inf] or [nan]; lemma
    [total_firms_positive] shows that the divisor of
    [calculate_market_shares] is positive whenever the series has an
    element, and an empty series is divided into an empty series.) *)
Definition series_div (xs : list Z) (d : Z) : list Q :=
  map (fun x => inject_Z x / inject_Z d) xs.

(** [sorted(xs, reverse=True)]: descending and stable.  Elements are
    inserted from the right; an element goes in front of the first one
    that is not larger, so equal elements keep their order. *)
Fixpoint insert_desc (x : Q) (l : list Q) : list Q :=
  match l with
  | [] => [x]
  | y :: l' => if Qle_bool y x then x :: l else y :: insert_desc x l'
  end.

Definition sorted_reverse (l : list Q) : list Q := fold_right insert_desc [] l.

(* ------------------------------------------------------------------ *)
(** ** Rows and tables *)

Record row : Type := mkRow {
  unidad_economica : string;   (* column "Nombre de la Unidad Económica" *)
  clase_actividad : string     (* column "Nombre de clase de la actividad" *)
}.

Definition DataFrame : Type := list row.

(** [df.groupby(col).size()]: one entry per distinct key, keys in
    ascending order (groupby sorts its keys), each with its number of
    rows.  [tally] adds one row with key [k] to such a table. *)
Fixpoint tally (k : string) (g : list (string * Z)) : list (string * Z) :=
  match g with
  | [] => [(k, 1%Z)]
  | (k', m) :: g' =>
      match String.compare k k' with
      | Eq => (k', (m + 1)%Z) :: g'
      | Lt => (k, 1%Z) :: g
      | Gt => (k', m) :: tally k g'
      end
  end.

Definition groupby_size (keys : list string) : list (string * Z) :=
  fold_left (fun g k => tally k g) keys [].

(** [Series.unique()]: distinct values in order of first appearance. *)
Fixpoint unique_from (seen : list string) (l : list string) : list string :=
  match l with
  | [] => []
  | x :: l' =>
      if existsb (String.eqb x) seen then unique_from seen l'
      else x :: unique_from (x :: seen) l'
  end.

Definition unique (l : list string) : list string := unique_from [] l.

(* ------------------------------------------------------------------ *)
(** ** Concentration metrics *)

(** [n_firms] is the series of group sizes, indexed by firm name; the sum,
    the division and [tolist()] use its values only. *)
Definition calculate_market_shares (df : DataFrame) : outcome (list Q * Q) :=
  let n_firms := groupby_size (map unidad_economica df) in
  let total_firms := series_sum (map snd n_firms) in
  let market_shares := series_div (map snd n_firms) total_firms in
  let cr4 := sum (firstn 4 (sorted_reverse market_shares)) in
  Returns (market_shares, cr4).

Definition calculate_hhi (market_shares : list Q) : Q :=
  sum (map (fun share => share ^ 2) market_shares) * 10000.

(* ------------------------------------------------------------------ *)
(** ** Structure classifier *)

Definition Monopolio : string := "Monopolio"%string.
Definition Oligopolio : string := "Oligopolio"%string.
Definition Competencia_Monopolistica : string := "Competencia Monopolística"%string.
Definition Competencia_Perfecta : string := "Competencia Perfecta"%string.

Definition determine_market_structure (hhi cr4 : Q) (n_firms : Z) : string :=
  if Qgt_bool hhi 7500 && Qgt_bool cr4 (9 # 10) then Monopolio
  else if Qgt_bool hhi 2500 && Qgt_bool cr4 (6 # 10) then Oligopolio
  else if Qgt_bool hhi 1500 && (10 <? n_firms)%Z then Competencia_Monopolistica
  else Competencia_Perfecta.

(* ------------------------------------------------------------------ *)
(** ** Market partitioner *)

(** A Python [dict] from structure names to lists of activities, in
    insertion order. *)
Definition dict : Type := list (string * list string).

(** [d[k].append(v)]: [KeyError] when [k] is not a key. *)
Fixpoint dict_append (d : dict) (k v : string) : outcome dict :=
  match d with
  | [] => Raises (KeyError k)
  | (k', l) :: d' =>
      if String.eqb k' k then Returns ((k', l ++ [v]) :: d')
      else d'' <- dict_append d' k v ;; Returns ((k', l) :: d'')
  end.

(** [d.get(k)]: the list stored under [k], if [k] is a key. *)
Definition dict_get (d : dict) (k : string) : option (list string) :=
  option_map snd (find (fun e => String.eqb (fst e) k) d).

Definition empty_market_structures : dict :=
  [(Monopolio, []); (Oligopolio, []);
   (Competencia_Monopolistica, []); (Competencia_Perfecta, [])].

(** [df[df[col] == activity]] *)
Definition select_activity (df : DataFrame) (activity : string) : DataFrame :=
  filter (fun r => String.eqb (clase_actividad r) activity) df.

(** Lines 49-53 of the loop body: the structure found for one activity. *)
Definition structure_of_activity (df : DataFrame) (activity : string)
  : outcome string :=
  let df_activity := select_activity df activity in
  '(market_shares, cr4) <- calculate_market_shares df_activity ;;
  let hhi := calculate_hhi market_shares in
  let n_firms := Z.of_nat (List.length df_activity) in
  Returns (determine_market_structure hhi cr4 n_firms).

Definition analyze_step (df : DataFrame) (acc : outcome dict)
  (activity : string) : outcome dict :=
  market_structures <- acc ;;
  structure <- structure_of_activity df activity ;;
  dict_append market_structures structure activity.

Definition analyze_all_market_structures (df : DataFrame) : outcome dict :=
  fold_left (analyze_step df) (unique (map clase_actividad df))
    (Returns empty_market_structures).

(* ------------------------------------------------------------------ *)
(** ** Equilibrium solvers

    Each solver returns a Python [dict] with a fixed set of keys; the
    model has one record per solver, its fields named after the keys. *)

Module Cournot.
Record result : Type := mk {
    Q_total : Q; P_equilibrio : Q; q_individual : Q; beneficio_individual : Q }.
End Cournot.

Module Bertrand.
Record result : Type := mk { P_equilibrio : Q; beneficio_individual : Q }.
End Bertrand.

Module Stackelberg.
Record result : Type := mk {
    q_lider : Q; q_seguidor : Q; Q_total : Q; P_equilibrio : Q;
    beneficio_lider : Q; beneficio_seguidor : Q }.
End Stackelberg.

Module Cartel.
Record result : Type := mk {
    Q_total : Q; P_equilibrio : Q; q_individual : Q;
    beneficio_total : Q; beneficio_individual : Q }.
End Cartel.

Module PerfectCompetition.
Record result : Type := mk { P_equilibrio : Q; Q_total : Q }.
End PerfectCompetition.

Module MonopolisticCompetition.
Record result : Type := mk { P_equilibrio : Q; q_individual : Q; Q_total : Q }.
End MonopolisticCompetition.

Module Monopoly.
Record result : Type := mk { Q_total : Q; P_equilibrio : Q; beneficio : Q }.
End Monopoly.

Definition cournot_model (n_firms : Z) (a b c : Q) : outcome Cournot.result :=
  Q_total <- py_div (inject_Z n_firms * (a - c)) (b * inject_Z (n_firms + 1)) ;;
  let P := a - b * Q_total in
  q_individual <- py_div Q_total (inject_Z n_firms) ;;
  let profit_individual := (P - c) * q_individual in
  Returns (Cournot.mk Q_total P q_individual profit_individual).

Definition bertrand_model (c : Q) : outcome Bertrand.result :=
  Returns (Bertrand.mk c 0).

Definition stackelberg_model (a b c : Q) : outcome Stackelberg.result :=
  q_leader <- py_div (a - c) (2 * b) ;;
  q_follower <- py_div (a - c - b * q_leader) (2 * b) ;;
  let Q_total := q_leader + q_follower in
  let P := a - b * Q_total in
  let profit_leader := (P - c) * q_leader in
  let profit_follower := (P - c) * q_follower in
  Returns (Stackelberg.mk q_leader q_follower Q_total P
             profit_leader profit_follower).

Definition cartel_model (n_firms : Z) (a b c : Q) : outcome Cartel.result :=
  Q_total <- py_div (a - c) (2 * b) ;;
  let P := a - b * Q_total in
  q_individual <- py_div Q_total (inject_Z n_firms) ;;
  let profit_total := (P - c) * Q_total in
  profit_individual <- py_div profit_total (inject_Z n_firms) ;;
  Returns (Cartel.mk Q_total P q_individual profit_total profit_individual).

Definition perfect_competition_model (a b c : Q)
  : outcome PerfectCompetition.result :=
  let P := c in
  Q_total <- py_div (a - P) b ;;
  Returns (PerfectCompetition.mk P Q_total).

Definition monopolistic_competition_model (n_firms : Z) (a b c d : Q)
  : outcome MonopolisticCompetition.result :=
  P <- py_div (a + c) 2 ;;
  q <- py_div (a - P) (b * (1 + d)) ;;
  let Q_total := inject_Z n_firms * q in
  Returns (MonopolisticCompetition.mk P q Q_total).

Definition monopoly_model (a b c : Q) : outcome Monopoly.result :=
  Q_total <- py_div (a - c) (2 * b) ;;
  let P := a - b * Q_total in
  let profit := (P - c) * Q_total in
  Returns (Monopoly.mk Q_total P profit).

(* ------------------------------------------------------------------ *)
(** ** The computations of [main]

    [main] draws a page; between the drawing calls it computes.  The model
    keeps the computations, in the order of the source, and takes what the
    user picks or types (the selected structure and activity, the
    parameters [a], [b], [c] and the slider value [d]) as arguments. *)

(** Line 155: the structures that have at least one activity
    ([if acts] holds for a non-empty list). *)
Definition available_structures (market_structures : dict) : list string :=
  map fst
    (filter (fun item => match snd item with [] => false | _ :: _ => true end)
            market_structures).

(** Line 164: [market_structures[selected_structure]]. *)
Definition dict_item (d : dict) (k : string) : outcome (list string) :=
  match dict_get d k with
  | Some l => Returns l
  | None => Raises (KeyError k)
  end.

(** Lines 167-172: the metrics of the selected activity, as
    [(market_shares, cr4, hhi, n_firms)]. *)
Definition activity_metrics (df : DataFrame) (selected_activity : string)
  : outcome (list Q * Q * Q * Z) :=
  let df_activity := select_activity df selected_activity in
  '(market_shares, cr4) <- calculate_market_shares df_activity ;;
  let hhi := calculate_hhi market_shares in
  let n_firms := Z.of_nat (List.length df_activity) in
  Returns (market_shares, cr4, hhi, n_firms).

(** Lines 205-259: the models applied for the selected structure. *)
Inductive model_results : Type :=
| Oligopoly_results (cournot : Cournot.result) (bertrand : Bertrand.result)
    (stackelberg : Stackelberg.result) (cartel : Cartel.result)
| Perfect_competition_results (r : PerfectCompetition.result)
| Monopolistic_competition_results (r : MonopolisticCompetition.result)
| Monopoly_results (r : Monopoly.result)
| No_results.

Definition apply_models (selected_structure : string) (n_firms : Z)
  (a b c d : Q) : outcome model_results :=
  if String.eqb selected_structure Oligopolio then
    cournot <- cournot_model n_firms a b c ;;
    bertrand <- bertrand_model c ;;
    stackelberg <- stackelberg_model a b c ;;
    cartel <- cartel_model n_firms a b c ;;
    Returns (Oligopoly_results cournot bertrand stackelberg cartel)
  else if String.eqb selected_structure Competencia_Perfecta then
    results <- perfect_competition_model a b c ;;
    Returns (Perfect_competition_results results)
  else if String.eqb selected_structure Competencia_Monopolistica then
    results <- monopolistic_competition_model n_firms a b c d ;;
    Returns (Monopolistic_competition_results results)
  else if String.eqb selected_structure Monopolio then
    results <- monopoly_model a b c ;;
    Returns (Monopoly_results results)
  else Returns No_results.

(** Lines 144-259 for one choice of the user: analyse the table, look up
    the activities of the selected structure, compute the metrics of the
    selected activity and apply the models. *)
Definition analysis (df : DataFrame) (selected_structure selected_activity : string)
  (a b c d : Q) : outcome (list string * (list Q * Q * Q * Z) * model_results) :=
  market_structures <- analyze_all_market_structures df ;;
  activities <- dict_item market_structures selected_structure ;;
  metrics <- activity_metrics df selected_activity ;;
  results <- apply_models selected_structure (snd metrics) a b c d ;;
  Returns (activities, metrics, results).

(* ------------------------------------------------------------------ *)
(** ** Market shares in binary64

    [calculate_market_shares] once more, with the numbers the program
    really computes with: IEEE 754 binary64, every operation rounded to
    nearest even ([SpecFloat] with 53 bits of precision).  The group sizes
    are integers; numpy converts them to binary64 (exactly, below 2^53)
    and divides; [sorted] compares floats; the builtin [sum] starts from
    the integer 0 and adds from left to right, rounding every addition
    (the plain addition loop of CPython; the compensated summation that
    CPython 3.12 introduced is not modelled). *)

Module Binary64.

Definition float : Type := SpecFloat.spec_float.

Definition prec : Z := 53.
Definition emax : Z := 1024.

(** Conversion of an integer to the nearest float. *)
Definition of_int (n : Z) : float :=
  SpecFloat.binary_normalize prec emax n 0 false.

Definition add : float -> float -> float := SpecFloat.SFadd prec emax.
Definition div : float -> float -> float := SpecFloat.SFdiv prec emax.
Definition leb : float -> float -> bool := SpecFloat.SFleb.


Definition sum (xs : list float) : float := fold_left add xs (of_int 0).

Definition series_div (xs : list Z) (d : Z) : list float :=
  map (fun x => div (of_int x) (of_int d)) xs.

Fixpoint insert_desc (x : float) (l : list float) : list float :=
  match l with
  | [] => [x]
  | y :: l' => if leb y x then x :: l else y :: insert_desc x l'
  end.

Definition sorted_reverse (l : list float) : list float :=
  fold_right insert_desc [] l.

Definition calculate_market_shares (df : DataFrame)
  : outcome (list float * float) :=
  let n_firms := groupby_size (map unidad_economica df) in
  let total_firms := series_sum (map snd n_firms) in
  let market_shares := series_div (map snd n_firms) total_firms in
  let cr4 := sum (firstn 4 (sorted_reverse market_shares)) in
  Returns (market_shares, cr4).

End Binary64.



(* ------------------------------------------------------------------ *)
(** ** Vocabulary of the statements *)


Definition slt (a b : string) : Prop := String.compare a b = Lt.

(** Number of rows recorded for key [k] in a table of group sizes. *)
Fixpoint count_in (g : list (string * Z)) (k : string) : Z :=
  match g with
  | [] => 0%Z
  | (k', m) :: g' => if String.eqb k' k then m else count_in g' k
  end.

Definition keys_ascending (g : list (string * Z)) : Prop :=
  StronglySorted slt (map fst g).

Definition sizes_positive (g : list (string * Z)) : Prop :=
  Forall (fun e => (0 < snd e)%Z) g.

(** The distinct firm names of a table, in the order of the groups. *)
Definition firms (df : DataFrame) : list string :=
  map fst (groupby_size (map unidad_economica df)).

(** Number of rows (establishments) of firm [f]. *)
Definition establishments (df : DataFrame) (f : string) : Z :=
  Z.of_nat (count_occ string_dec (map unidad_economica df) f).

(** The share of each firm: its rows over all rows. *)
Definition shares_of (df : DataFrame) : list Q :=
  map (fun f => inject_Z (establishments df f) / inject_Z (Z.of_nat (List.length df)))
      (firms df).

(** Sum of the squared shares, the unscaled index. *)
Definition sumsq (l : list Q) : Q := sum (map (fun share => share ^ 2) l).

(** The shares that are not zero. *)
Definition nonzero_shares (l : list Q) : list Q :=
  filter (fun s => negb (Qeq_bool s 0)) l.

(** The three threshold rules, as propositions. *)
Definition rule_monopoly (hhi cr4 : Q) : Prop := 7500 < hhi /\ 9 # 10 < cr4.
Definition rule_oligopoly (hhi cr4 : Q) : Prop := 2500 < hhi /\ 6 # 10 < cr4.
Definition rule_monopolistic (hhi : Q) (n_firms : Z) : Prop :=
  1500 < hhi /\ (10 < n_firms)%Z.

(** The four structure names, in the order of the keys of the result of
    [analyze_all_market_structures]. *)
Definition structure_names : list string :=
  [Monopolio; Oligopolio; Competencia_Monopolistica; Competencia_Perfecta].

(** The activities of [acts] that [f] sends to the structure [s]. *)
Definition bucket (f : string -> string) (s : string) (acts : list string)
  : list string :=
  filter (fun a => String.eqb (f a) s) acts.

(** The dictionary that holds, under each name, the activities of [acts]
    that [f] sends to it. *)
Definition classified (names : list string) (f : string -> string)
  (acts : list string) : dict :=
  map (fun s => (s, bucket f s acts)) names.

(** The structure the loop body computes for an activity. *)
Definition structure_name (df : DataFrame) (activity : string) : string :=
  let df_activity := select_activity df activity in
  determine_market_structure
    (calculate_hhi (shares_of df_activity))
    (sum (firstn 4 (sorted_reverse (shares_of df_activity))))
    (Z.of_nat (List.length df_activity)).

(** An activity with five firms of three establishments each. *)
Definition five_firms_three_each : DataFrame :=
  [mkRow "F1" "x"; mkRow "F2" "x"; mkRow "F3" "x"; mkRow "F4" "x"; mkRow "F5" "x";
   mkRow "F1" "x"; mkRow "F2" "x"; mkRow "F3" "x"; mkRow "F4" "x"; mkRow "F5" "x";
   mkRow "F1" "x"; mkRow "F2" "x"; mkRow "F3" "x"; mkRow "F4" "x"; mkRow "F5" "x"].

(* ================================================================== *)
(** * Properties *)

(* ------------------------------------------------------------------ *)
(** ** Comparisons and division *)

Lemma Qgt_bool_iff (x y : Q) : Qgt_bool x y = true <-> y < x.
Proof.
  unfold Qgt_bool. rewrite negb_true_iff.
  split; intros H.
  - apply Qnot_le_lt. intros Hle. apply Qle_bool_iff in Hle. congruence.
  - destruct (Qle_bool x y) eqn:E; [|reflexivity].
    apply Qle_bool_iff in E. exfalso. apply (Qlt_not_le _ _ H E).
Qed.

Lemma Qgt_bool_false_iff (x y : Q) : Qgt_bool x y = false <-> x <= y.
Proof.
  unfold Qgt_bool. rewrite negb_false_iff. apply Qle_bool_iff.
Qed.

Lemma py_div_nonzero (x y : Q) : ~ y == 0 -> py_div x y = Returns (x / y).
Proof.
  intros H. unfold py_div.
  destruct (Qeq_bool y 0) eqn:E; [|reflexivity].
  apply Qeq_bool_iff in E. contradiction.
Qed.

Lemma py_div_zero (x y : Q) : y == 0 -> py_div x y = Raises ZeroDivisionError.
Proof.
  intros H. unfold py_div. apply Qeq_bool_iff in H. now rewrite H.
Qed.

Lemma inject_Z_nonzero (n : Z) : n <> 0%Z -> ~ inject_Z n == 0.
Proof.
  intros Hn H. apply Hn. unfold Qeq in H. simpl in H. lia.
Qed.

Lemma inject_Z_zero (n : Z) : n = 0%Z -> inject_Z n == 0.
Proof. intros ->. reflexivity. Qed.

(* ------------------------------------------------------------------ *)
(** ** Sums *)

Lemma fold_left_Qplus_acc (l : list Q) (a : Q) :
  fold_left Qplus l a == a + sum l.
Proof.
  unfold sum. revert a.
  induction l as [|x l IH]; intros a; simpl.
  - ring.
  - rewrite (IH (a + x)), (IH (0 + x)). ring.
Qed.

Lemma sum_nil : sum [] = 0.
Proof. reflexivity. Qed.

Lemma sum_cons (x : Q) (l : list Q) : sum (x :: l) == x + sum l.
Proof.
  unfold sum at 1. simpl. rewrite fold_left_Qplus_acc. ring.
Qed.


Lemma sum_perm (l1 l2 : list Q) : Permutation l1 l2 -> sum l1 == sum l2.
Proof.
  induction 1 as [|x l1 l2 _ IH|x y l|l1 l2 l3 _ IH1 _ IH2].
  - reflexivity.
  - rewrite !sum_cons, IH. reflexivity.
  - rewrite !sum_cons. ring.
  - now rewrite IH1.
Qed.

Lemma sum_nonneg (l : list Q) : Forall (fun x => 0 <= x) l -> 0 <= sum l.
Proof.
  induction 1 as [|x l Hx _ IH].
  - rewrite sum_nil. apply Qle_refl.
  - rewrite sum_cons. lra.
Qed.

Lemma sum_pos (l : list Q) : l <> [] -> Forall (fun x => 0 < x) l -> 0 < sum l.
Proof.
  intros Hne H. destruct H as [|x l Hx Hl]; [congruence|].
  rewrite sum_cons.
  assert (0 <= sum l).
  { apply sum_nonneg. eapply Forall_impl; [|exact Hl]. intros; simpl in *; lra. }
  lra.
Qed.


(* ------------------------------------------------------------------ *)
(** ** [sorted(..., reverse=True)] *)

Lemma insert_desc_perm (x : Q) (l : list Q) :
  Permutation (x :: l) (insert_desc x l).
Proof.
  induction l as [|y l IH]; simpl.
  - apply Permutation_refl.
  - destruct (Qle_bool y x).
    + apply Permutation_refl.
    + eapply perm_trans; [apply perm_swap|]. now apply perm_skip.
Qed.

Lemma sorted_reverse_perm (l : list Q) : Permutation l (sorted_reverse l).
Proof.
  induction l as [|x l IH]; simpl.
  - apply perm_nil.
  - eapply perm_trans; [apply perm_skip, IH|]. apply insert_desc_perm.
Qed.



(* ------------------------------------------------------------------ *)
(** ** [groupby(...).size()] *)

Lemma slt_trans (a b c : string) : slt a b -> slt b c -> slt a c.
Proof.
  unfold slt. intros H1 H2.
  apply OrderedTypeEx.String_as_OT.cmp_lt in H1, H2.
  apply OrderedTypeEx.String_as_OT.cmp_lt.
  eapply OrderedTypeEx.String_as_OT.lt_trans; eassumption.
Qed.

Lemma slt_irrefl (a : string) : ~ slt a a.
Proof.
  unfold slt. intros H.
  assert (E : String.compare a a = Eq)
    by now apply OrderedTypeEx.String_as_OT.cmp_eq.
  congruence.
Qed.

Lemma compare_Gt_slt (a b : string) : String.compare a b = Gt -> slt b a.
Proof.
  unfold slt. intros H. rewrite String.compare_antisym, H. reflexivity.
Qed.

Lemma count_in_below (k : string) (g : list (string * Z)) :
  Forall (slt k) (map fst g) -> count_in g k = 0%Z.
Proof.
  induction g as [|[k' m] g IH]; simpl; intros H; [reflexivity|].
  inversion H as [|? ? Hk Hg]; subst.
  destruct (String.eqb_spec k' k) as [->|_].
  - now apply slt_irrefl in Hk.
  - now apply IH.
Qed.

Lemma count_in_member (g : list (string * Z)) (k : string) (m : Z) :
  keys_ascending g -> In (k, m) g -> count_in g k = m.
Proof.
  unfold keys_ascending.
  induction g as [|[k' m'] g IH]; simpl; intros Hs Hin; [contradiction|].
  inversion Hs as [|? ? Hg Hk]; subst.
  destruct Hin as [E|Hin].
  - inversion E; subst. now rewrite String.eqb_refl.
  - destruct (String.eqb_spec k' k) as [->|_].
    + exfalso. rewrite Forall_forall in Hk.
      apply (slt_irrefl k), Hk. apply in_map_iff. now exists (k, m).
    + now apply IH.
Qed.

Lemma count_in_positive (g : list (string * Z)) (k : string) :
  sizes_positive g -> (In k (map fst g) <-> (0 < count_in g k)%Z).
Proof.
  unfold sizes_positive.
  induction 1 as [|[k' m] g Hm _ IH]; simpl in *.
  - split; [contradiction|lia].
  - destruct (String.eqb_spec k' k) as [->|Hne].
    + split; [intros _; exact Hm|now left].
    + rewrite <- IH. split; [intros [E|H]; [contradiction|exact H]|now right].
Qed.

Lemma tally_keys (k k0 : string) (g : list (string * Z)) :
  In k0 (map fst (tally k g)) <-> k0 = k \/ In k0 (map fst g).
Proof.
  induction g as [|[k' m] g IH]; simpl.
  - intuition.
  - destruct (String.compare k k') eqn:E; simpl.
    + apply String.compare_eq_iff in E. subst. intuition.
    + intuition.
    + rewrite IH. intuition.
Qed.

Lemma tally_ascending (k : string) (g : list (string * Z)) :
  keys_ascending g -> keys_ascending (tally k g).
Proof.
  unfold keys_ascending.
  induction g as [|[k' m] g IH]; simpl; intros Hs.
  - repeat constructor.
  - inversion Hs as [|? ? Hg Hk]; subst.
    destruct (String.compare k k') eqn:E; simpl.
    + now constructor.
    + constructor; [exact Hs|].
      constructor; [exact E|].
      eapply Forall_impl; [|exact Hk]. intros z Hz. eapply slt_trans; eassumption.
    + constructor; [now apply IH|].
      apply Forall_forall. intros z Hz. apply tally_keys in Hz.
      destruct Hz as [->|Hz].
      * now apply compare_Gt_slt.
      * rewrite Forall_forall in Hk. now apply Hk.
Qed.

Lemma tally_positive (k : string) (g : list (string * Z)) :
  sizes_positive g -> sizes_positive (tally k g).
Proof.
  unfold sizes_positive.
  induction 1 as [|[k' m] g Hm Hg IH]; simpl in *.
  - repeat constructor.
  - destruct (String.compare k k'); constructor; simpl; auto; lia.
Qed.

Lemma tally_count_same (k : string) (g : list (string * Z)) :
  keys_ascending g -> count_in (tally k g) k = (count_in g k + 1)%Z.
Proof.
  unfold keys_ascending.
  induction g as [|[k' m] g IH]; simpl; intros Hs.
  - now rewrite String.eqb_refl.
  - inversion Hs as [|? ? Hg Hk]; subst.
    destruct (String.compare k k') eqn:E; simpl.
    + apply String.compare_eq_iff in E. subst. now rewrite String.eqb_refl.
    + rewrite String.eqb_refl.
      destruct (String.eqb_spec k' k) as [->|_].
      * now apply slt_irrefl in E.
      * rewrite count_in_below; [reflexivity|].
        eapply Forall_impl; [|exact Hk]. intros z Hz. eapply slt_trans; eassumption.
    + destruct (String.eqb_spec k' k) as [->|_].
      * apply compare_Gt_slt in E. now apply slt_irrefl in E.
      * now apply IH.
Qed.

Lemma tally_count_other (k k0 : string) (g : list (string * Z)) :
  k0 <> k -> count_in (tally k g) k0 = count_in g k0.
Proof.
  intros Hne.
  induction g as [|[k' m] g IH]; simpl.
  - destruct (String.eqb_spec k k0); [congruence|reflexivity].
  - destruct (String.compare k k') eqn:E; simpl.
    + apply String.compare_eq_iff in E. subst.
      destruct (String.eqb_spec k' k0); [congruence|reflexivity].
    + destruct (String.eqb_spec k k0); [congruence|reflexivity].
    + destruct (String.eqb k' k0); [reflexivity|exact IH].
Qed.

Lemma series_sum_acc (l : list Z) (a : Z) :
  fold_left Z.add l a = (a + series_sum l)%Z.
Proof.
  unfold series_sum. revert a.
  induction l as [|x l IH]; intros a; simpl; [lia|].
  rewrite (IH (a + x)%Z), (IH x). lia.
Qed.

Lemma series_sum_cons (x : Z) (l : list Z) :
  series_sum (x :: l) = (x + series_sum l)%Z.
Proof.
  unfold series_sum at 1. simpl. rewrite series_sum_acc. lia.
Qed.

Lemma tally_total (k : string) (g : list (string * Z)) :
  series_sum (map snd (tally k g)) = (series_sum (map snd g) + 1)%Z.
Proof.
  induction g as [|[k' m] g IH]; simpl; [reflexivity|].
  destruct (String.compare k k'); cbn [map snd]; rewrite !series_sum_cons.
  - lia.
  - lia.
  - rewrite IH. lia.
Qed.

(** The loop invariant of [groupby_size]: after the rows [seen], the table
    is sorted, holds positive sizes only, and records for every key its
    number of occurrences in [seen]. *)
Lemma groupby_fold (names seen : list string) (g : list (string * Z)) :
  keys_ascending g -> sizes_positive g ->
  (forall k, count_in g k = Z.of_nat (count_occ string_dec seen k)) ->
  series_sum (map snd g) = Z.of_nat (List.length seen) ->
  let g' := fold_left (fun g k => tally k g) names g in
  keys_ascending g' /\ sizes_positive g' /\
  (forall k, count_in g' k = Z.of_nat (count_occ string_dec (seen ++ names) k)) /\
  series_sum (map snd g') = Z.of_nat (List.length (seen ++ names)).
Proof.
  revert seen g.
  induction names as [|x names IH]; intros seen g Hs Hp Hc Ht; simpl.
  - rewrite app_nil_r. auto.
  - replace (seen ++ x :: names) with ((seen ++ [x]) ++ names)
      by (rewrite <- app_assoc; reflexivity).
    apply IH.
    + now apply tally_ascending.
    + now apply tally_positive.
    + intros k. rewrite count_occ_app. simpl.
      destruct (string_dec x k) as [->|Hne].
      * rewrite tally_count_same, Hc by assumption. lia.
      * rewrite tally_count_other, Hc by congruence. lia.
    + rewrite tally_total, Ht, length_app. simpl. lia.
Qed.

Lemma groupby_size_spec (names : list string) :
  let g := groupby_size names in
  keys_ascending g /\ sizes_positive g /\
  (forall k, count_in g k = Z.of_nat (count_occ string_dec names k)) /\
  series_sum (map snd g) = Z.of_nat (List.length names).
Proof.
  apply (groupby_fold names [] []).
  - constructor.
  - constructor.
  - reflexivity.
  - reflexivity.
Qed.

Lemma keys_ascending_NoDup (g : list (string * Z)) :
  keys_ascending g -> NoDup (map fst g).
Proof.
  unfold keys_ascending.
  induction 1 as [|k ks _ IH Hk]; constructor; [|exact IH].
  intros Hin. rewrite Forall_forall in Hk. now apply (slt_irrefl k), Hk.
Qed.

Lemma groupby_size_keys (names : list string) (k : string) :
  In k (map fst (groupby_size names)) <-> In k names.
Proof.
  destruct (groupby_size_spec names) as (_ & Hp & Hc & _).
  rewrite (count_in_positive _ k Hp), Hc.
  rewrite (count_occ_In string_dec). lia.
Qed.

Lemma groupby_size_entries (names : list string) :
  groupby_size names =
  map (fun k => (k, Z.of_nat (count_occ string_dec names k)))
      (map fst (groupby_size names)).
Proof.
  destruct (groupby_size_spec names) as (Hs & _ & Hc & _).
  rewrite map_map. rewrite <- (map_id (groupby_size names)) at 1.
  apply map_ext_in. intros [k m] Hin. simpl.
  rewrite <- Hc. now rewrite (count_in_member _ k m Hs Hin).
Qed.

(* ------------------------------------------------------------------ *)
(** ** Market shares *)

Lemma calculate_market_shares_eq (df : DataFrame) :
  calculate_market_shares df =
  Returns (shares_of df, sum (firstn 4 (sorted_reverse (shares_of df)))).
Proof.
  unfold calculate_market_shares.
  assert (E : series_div
                (map snd (groupby_size (map unidad_economica df)))
                (series_sum (map snd (groupby_size (map unidad_economica df))))
              = shares_of df).
  { destruct (groupby_size_spec (map unidad_economica df)) as (_ & _ & _ & Ht).
    simpl in Ht. rewrite Ht, length_map.
    unfold series_div, shares_of, firms, establishments.
    rewrite (groupby_size_entries (map unidad_economica df)) at 1.
    rewrite !map_map. reflexivity. }
  now rewrite E.
Qed.

Lemma firms_NoDup (df : DataFrame) : NoDup (firms df).
Proof.
  apply keys_ascending_NoDup.
  now destruct (groupby_size_spec (map unidad_economica df)).
Qed.

Lemma firms_In (df : DataFrame) (f : string) :
  In f (firms df) <-> In f (map unidad_economica df).
Proof. apply groupby_size_keys. Qed.

Lemma firms_length (df : DataFrame) :
  List.length (firms df) =
  List.length (nodup string_dec (map unidad_economica df)).
Proof.
  apply Permutation_length, NoDup_Permutation.
  - apply firms_NoDup.
  - apply NoDup_nodup.
  - intros f. rewrite firms_In, nodup_In. reflexivity.
Qed.

Lemma establishments_bounds (df : DataFrame) (f : string) :
  In f (firms df) ->
  (0 < establishments df f <= Z.of_nat (List.length df))%Z.
Proof.
  intros Hin. apply firms_In in Hin. unfold establishments.
  apply (count_occ_In string_dec) in Hin.
  pose proof (count_occ_bound string_dec f (map unidad_economica df)) as Hb.
  rewrite length_map in Hb. lia.
Qed.

Lemma inject_Z_pos (n : Z) : (0 < n)%Z -> 0 < inject_Z n.
Proof. intros H. unfold Qlt. simpl. lia. Qed.

Lemma shares_of_range (df : DataFrame) :
  Forall (fun s => 0 < s /\ s <= 1) (shares_of df).
Proof.
  unfold shares_of. apply Forall_map, Forall_forall. intros f Hin.
  destruct (establishments_bounds df f Hin) as [H0 H1].
  assert (Ht : 0 < inject_Z (Z.of_nat (List.length df)))
    by (apply inject_Z_pos; lia).
  split.
  - apply Qlt_shift_div_l; [exact Ht|]. rewrite Qmult_0_l. now apply inject_Z_pos.
  - apply Qle_shift_div_r; [exact Ht|]. rewrite Qmult_1_l.
    rewrite <- Zle_Qle. exact H1.
Qed.


Lemma sum_series_div (xs : list Z) (d : Z) :
  sum (series_div xs d) == inject_Z (series_sum xs) / inject_Z d.
Proof.
  unfold series_div.
  induction xs as [|x xs IH]; simpl.
  - rewrite sum_nil. unfold series_sum. simpl. unfold Qdiv. ring.
  - rewrite sum_cons, series_sum_cons, IH, inject_Z_plus. unfold Qdiv. ring.
Qed.

Lemma shares_of_sum (df : DataFrame) : df <> [] -> sum (shares_of df) == 1.
Proof.
  intros Hne.
  pose proof (calculate_market_shares_eq df) as E.
  unfold calculate_market_shares in E. injection E as E _.
  rewrite <- E, sum_series_div.
  destruct (groupby_size_spec (map unidad_economica df)) as (_ & _ & _ & Ht).
  simpl in Ht. rewrite Ht, length_map.
  apply Qmult_inv_r, inject_Z_nonzero.
  destruct df; [congruence|simpl; lia].
Qed.

Lemma shares_of_length (df : DataFrame) :
  List.length (shares_of df) = List.length (firms df).
Proof. unfold shares_of. apply length_map. Qed.

(* ------------------------------------------------------------------ *)
(** ** The largest [k] elements *)


(* ------------------------------------------------------------------ *)
(** ** Herfindahl-Hirschman index *)

Lemma Qsquare (x : Q) : x ^ 2 == x * x.
Proof. simpl. ring. Qed.

Lemma sumsq_nil : sumsq [] = 0.
Proof. reflexivity. Qed.

Lemma sumsq_cons (x : Q) (l : list Q) : sumsq (x :: l) == x * x + sumsq l.
Proof.
  unfold sumsq. cbn [map]. rewrite sum_cons, Qsquare. reflexivity.
Qed.

Lemma calculate_hhi_sumsq (l : list Q) : calculate_hhi l = sumsq l * 10000.
Proof. reflexivity. Qed.

Lemma sumsq_nonneg (l : list Q) : 0 <= sumsq l.
Proof.
  induction l as [|x l IH].
  - rewrite sumsq_nil. apply Qle_refl.
  - rewrite sumsq_cons. nra.
Qed.

Lemma sumsq_le_square (l : list Q) :
  Forall (fun x => 0 <= x) l -> sumsq l <= sum l * sum l.
Proof.
  induction 1 as [|x l Hx Hl IH].
  - rewrite sumsq_nil, sum_nil. lra.
  - rewrite sumsq_cons, sum_cons.
    pose proof (sum_nonneg l Hl). nra.
Qed.

Lemma Forall_pos_nonneg (l : list Q) :
  Forall (fun x => 0 < x) l -> Forall (fun x => 0 <= x) l.
Proof.
  apply Forall_impl. intros x Hx. lra.
Qed.

Lemma sumsq_lt_square (l : list Q) :
  Forall (fun x => 0 < x) l -> (2 <= List.length l)%nat ->
  sumsq l < sum l * sum l.
Proof.
  intros Hl Hlen.
  destruct l as [|x [|y l]]; simpl in Hlen; try lia.
  inversion Hl as [|? ? Hx Hl']; subst.
  rewrite sumsq_cons, sum_cons.
  pose proof (sumsq_le_square _ (Forall_pos_nonneg _ Hl')) as Hle.
  assert (Hpos : 0 < sum (y :: l)) by (apply sum_pos; [discriminate|exact Hl']).
  nra.
Qed.

Lemma sumsq_one_iff (l : list Q) :
  Forall (fun x => 0 < x) l -> sum l == 1 ->
  (sumsq l == 1 <-> List.length l = 1%nat).
Proof.
  intros Hl Hs. split.
  - intros Hq.
    destruct l as [|x [|y l]]; [|reflexivity|].
    + rewrite sum_nil in Hs. discriminate Hs.
    + exfalso.
      assert (H : sumsq (x :: y :: l) < sum (x :: y :: l) * sum (x :: y :: l))
        by (apply sumsq_lt_square; [exact Hl|simpl; lia]).
      rewrite Hs, Hq in H. lra.
  - intros Hlen.
    destruct l as [|x [|y l]]; simpl in Hlen; try lia.
    rewrite sum_cons, sum_nil in Hs.
    rewrite sumsq_cons, sumsq_nil. nra.
Qed.

Lemma nonzero_shares_pos (l : list Q) :
  Forall (fun x => 0 <= x) l -> Forall (fun x => 0 < x) (nonzero_shares l).
Proof.
  intros H. unfold nonzero_shares. apply Forall_forall. intros x Hin.
  apply filter_In in Hin. destruct Hin as [Hin Hx].
  rewrite Forall_forall in H. specialize (H x Hin).
  apply negb_true_iff, Qeq_bool_neq in Hx.
  apply Qle_lteq in H. destruct H as [H|H]; [exact H|].
  exfalso. apply Hx. now symmetry.
Qed.

Lemma nonzero_shares_sum (l : list Q) : sum (nonzero_shares l) == sum l.
Proof.
  unfold nonzero_shares.
  induction l as [|x l IH]; simpl; [reflexivity|].
  destruct (Qeq_bool x 0) eqn:E; simpl.
  - apply Qeq_bool_iff in E. rewrite sum_cons, IH, E. ring.
  - rewrite !sum_cons, IH. reflexivity.
Qed.

Lemma nonzero_shares_sumsq (l : list Q) : sumsq (nonzero_shares l) == sumsq l.
Proof.
  unfold nonzero_shares.
  induction l as [|x l IH]; simpl; [reflexivity|].
  destruct (Qeq_bool x 0) eqn:E; simpl.
  - apply Qeq_bool_iff in E. rewrite sumsq_cons, IH, E. ring.
  - rewrite !sumsq_cons, IH. reflexivity.
Qed.

Lemma nonzero_shares_id (l : list Q) :
  Forall (fun x => 0 < x) l -> nonzero_shares l = l.
Proof.
  unfold nonzero_shares.
  induction 1 as [|x l Hx _ IH]; simpl; [reflexivity|].
  destruct (Qeq_bool x 0) eqn:E; simpl.
  - apply Qeq_bool_iff in E. rewrite E in Hx. discriminate Hx.
  - now rewrite IH.
Qed.

Lemma hhi_range (shares : list Q) :
  Forall (fun s => 0 <= s) shares -> sum shares == 1 ->
  0 < calculate_hhi shares <= 10000.
Proof.
  intros Hn Hs. rewrite calculate_hhi_sumsq.
  pose proof (sumsq_le_square shares Hn) as Hle. rewrite Hs in Hle.
  assert (Hpos : 0 < sumsq shares).
  { rewrite <- nonzero_shares_sumsq.
    pose proof (nonzero_shares_pos shares Hn) as Hp.
    pose proof (nonzero_shares_sum shares) as Hs'. rewrite Hs in Hs'.
    destruct (nonzero_shares shares) as [|x l].
    - rewrite sum_nil in Hs'. discriminate Hs'.
    - inversion Hp; subst. rewrite sumsq_cons.
      pose proof (sumsq_nonneg l). nra. }
  split; lra.
Qed.

Lemma hhi_max_iff (shares : list Q) :
  Forall (fun s => 0 <= s) shares -> sum shares == 1 ->
  (calculate_hhi shares == 10000 <->
   List.length (nonzero_shares shares) = 1%nat).
Proof.
  intros Hn Hs. rewrite calculate_hhi_sumsq.
  rewrite <- (sumsq_one_iff (nonzero_shares shares)).
  - rewrite nonzero_shares_sumsq. split; intros H; lra.
  - now apply nonzero_shares_pos.
  - now rewrite nonzero_shares_sum.
Qed.

(* ------------------------------------------------------------------ *)
(** ** Structure classifier *)

Lemma structure_names_NoDup : NoDup structure_names.
Proof.
  unfold structure_names.
  repeat constructor; simpl; intros H;
    repeat (destruct H as [H|H]; [discriminate H|]); exact H.
Qed.

Lemma determine_market_structure_name (hhi cr4 : Q) (n_firms : Z) :
  In (determine_market_structure hhi cr4 n_firms) structure_names.
Proof.
  unfold determine_market_structure, structure_names.
  destruct (_ && _); [simpl; tauto|].
  destruct (_ && _); [simpl; tauto|].
  destruct (_ && _); simpl; tauto.
Qed.

(* ------------------------------------------------------------------ *)
(** ** Market partitioner *)

Lemma structure_of_activity_eq (df : DataFrame) (activity : string) :
  structure_of_activity df activity = Returns (structure_name df activity).
Proof.
  unfold structure_of_activity. rewrite calculate_market_shares_eq.
  reflexivity.
Qed.

Lemma bucket_snoc (f : string -> string) (s a : string) (acts : list string) :
  bucket f s (acts ++ [a]) =
  (bucket f s acts ++ if String.eqb s (f a) then [a] else [])%list.
Proof.
  unfold bucket. rewrite filter_app. simpl.
  rewrite (String.eqb_sym (f a) s). now destruct (String.eqb s (f a)).
Qed.

Lemma dict_append_present (names : list string) (B : string -> list string)
  (s a : string) :
  NoDup names -> In s names ->
  dict_append (map (fun s' => (s', B s')) names) s a =
  Returns (map (fun s' => (s', (B s' ++ if String.eqb s' s then [a] else [])%list))
               names).
Proof.
  induction 1 as [|s0 names Hnot Hnd IH]; intros Hin; [contradiction|].
  simpl. destruct (String.eqb_spec s0 s) as [->|Hne].
  - do 2 f_equal. apply map_ext_in. intros s' Hs'.
    destruct (String.eqb_spec s' s) as [->|_]; [contradiction|].
    now rewrite app_nil_r.
  - destruct Hin as [E|Hin]; [congruence|].
    rewrite (IH Hin). simpl. now rewrite app_nil_r.
Qed.

Lemma dict_append_absent (d : dict) (s a : string) :
  ~ In s (map fst d) -> dict_append d s a = Raises (KeyError s).
Proof.
  induction d as [|[k l] d IH]; simpl; intros Hnot; [reflexivity|].
  destruct (String.eqb_spec k s) as [->|_]; [tauto|].
  rewrite IH by tauto. reflexivity.
Qed.

Lemma classified_step (names : list string) (f : string -> string)
  (acts : list string) (a : string) :
  NoDup names -> In (f a) names ->
  dict_append (classified names f acts) (f a) a =
  Returns (classified names f (acts ++ [a])).
Proof.
  intros Hnd Hin. unfold classified.
  rewrite (dict_append_present names (fun s => bucket f s acts) (f a) a Hnd Hin).
  apply f_equal, map_ext. intros s. now rewrite bucket_snoc.
Qed.

Lemma analyze_step_eq (df : DataFrame) (pre : list string) (a : string) :
  analyze_step df
    (Returns (classified structure_names (structure_name df) pre)) a =
  Returns (classified structure_names (structure_name df) (pre ++ [a])).
Proof.
  unfold analyze_step. cbn [bind].
  rewrite structure_of_activity_eq. cbn [bind].
  apply classified_step.
  - apply structure_names_NoDup.
  - apply determine_market_structure_name.
Qed.

Lemma analyze_fold (df : DataFrame) (acts pre : list string) :
  fold_left (analyze_step df) acts
    (Returns (classified structure_names (structure_name df) pre)) =
  Returns (classified structure_names (structure_name df) (pre ++ acts)).
Proof.
  revert pre. induction acts as [|a acts IH]; intros pre; cbn [fold_left].
  - now rewrite app_nil_r.
  - rewrite analyze_step_eq, IH, <- app_assoc. reflexivity.
Qed.

Lemma analyze_all_market_structures_eq (df : DataFrame) :
  analyze_all_market_structures df =
  Returns (classified structure_names (structure_name df)
             (unique (map clase_actividad df))).
Proof.
  unfold analyze_all_market_structures.
  change empty_market_structures
    with (classified structure_names (structure_name df) []).
  apply analyze_fold.
Qed.

Lemma buckets_cons (names : list string) (f : string -> string)
  (a : string) (acts : list string) :
  NoDup names -> In (f a) names ->
  Permutation (List.concat (map snd (classified names f (a :: acts))))
              (a :: List.concat (map snd (classified names f acts))).
Proof.
  unfold classified.
  induction 1 as [|s names Hnot Hnd IH]; intros Hin; [contradiction|].
  cbn [map snd List.concat]. unfold bucket at 1. cbn [filter].
  destruct (String.eqb_spec (f a) s) as [E|Hne].
  - fold (bucket f s acts). simpl. apply perm_skip, Permutation_app_head.
    apply Permutation_refl'. do 2 f_equal.
    apply map_ext_in. intros s' Hs'. unfold bucket. simpl.
    destruct (String.eqb_spec (f a) s') as [E'|_]; [|reflexivity].
    congruence.
  - fold (bucket f s acts).
    destruct Hin as [E|Hin]; [congruence|].
    eapply perm_trans; [apply Permutation_app_head, (IH Hin)|].
    apply Permutation_sym, Permutation_middle.
Qed.

Lemma buckets_partition (names : list string) (f : string -> string)
  (acts : list string) :
  NoDup names -> (forall a, In (f a) names) ->
  Permutation (List.concat (map snd (classified names f acts))) acts.
Proof.
  intros Hnd Hf.
  induction acts as [|a acts IH].
  - unfold classified. clear Hnd Hf.
    induction names as [|s names IHn]; simpl; [apply perm_nil|exact IHn].
  - eapply perm_trans; [apply buckets_cons; auto|]. now apply perm_skip.
Qed.

Lemma dict_get_classified (names : list string) (f : string -> string)
  (acts : list string) (s : string) :
  In s names ->
  dict_get (classified names f acts) s = Some (bucket f s acts).
Proof.
  unfold dict_get, classified.
  induction names as [|s0 names IH]; intros Hin; [contradiction|].
  simpl. destruct (String.eqb_spec s0 s) as [->|Hne]; [reflexivity|].
  destruct Hin as [E|Hin]; [congruence|]. now apply IH.
Qed.

Lemma classified_keys (names : list string) (f : string -> string)
  (acts : list string) :
  map fst (classified names f acts) = names.
Proof.
  unfold classified. rewrite map_map. simpl. apply map_id.
Qed.

(* ------------------------------------------------------------------ *)
(** ** [unique()] *)

Lemma existsb_eqb_In (x : string) (seen : list string) :
  existsb (String.eqb x) seen = true <-> In x seen.
Proof.
  rewrite existsb_exists. split.
  - intros (y & Hy & E). apply String.eqb_eq in E. now subst.
  - intros H. exists x. split; [exact H|apply String.eqb_refl].
Qed.

Lemma unique_from_In (l seen : list string) (x : string) :
  In x (unique_from seen l) <-> In x l /\ ~ In x seen.
Proof.
  revert seen. induction l as [|y l IH]; intros seen; simpl.
  - tauto.
  - destruct (existsb (String.eqb y) seen) eqn:E.
    + apply existsb_eqb_In in E. rewrite IH.
      split; [tauto|]. intros [[->|H] Hn]; tauto.
    + assert (Hy : ~ In y seen).
      { intros H. apply existsb_eqb_In in H. congruence. }
      simpl. rewrite IH. simpl.
      destruct (string_dec y x) as [->|Hne]; [tauto|].
      split; [intros [H|H]; tauto|intros [[H|H] Hn]; tauto].
Qed.

Lemma unique_from_NoDup (l seen : list string) : NoDup (unique_from seen l).
Proof.
  revert seen. induction l as [|y l IH]; intros seen; simpl.
  - constructor.
  - destruct (existsb (String.eqb y) seen); [apply IH|].
    constructor; [|apply IH].
    rewrite unique_from_In. simpl. tauto.
Qed.

Lemma unique_In (l : list string) (x : string) : In x (unique l) <-> In x l.
Proof. unfold unique. rewrite unique_from_In. simpl. tauto. Qed.

Lemma unique_NoDup (l : list string) : NoDup (unique l).
Proof. apply unique_from_NoDup. Qed.

Lemma unique_length (l : list string) :
  List.length (unique l) = List.length (nodup string_dec l).
Proof.
  apply Permutation_length, NoDup_Permutation.
  - apply unique_NoDup.
  - apply NoDup_nodup.
  - intros x. rewrite unique_In, nodup_In. reflexivity.
Qed.

Lemma select_activity_length (df : DataFrame) (activity : string) :
  List.length (select_activity df activity) =
  count_occ string_dec (map clase_actividad df) activity.
Proof.
  unfold select_activity.
  induction df as [|r df IH]; simpl; [reflexivity|].
  destruct (String.eqb_spec (clase_actividad r) activity) as [E|Hne];
    destruct (string_dec (clase_actividad r) activity); try congruence.
  simpl. now rewrite IH.
Qed.

Lemma nodup_length_le (l : list string) :
  (List.length (nodup string_dec l) <= List.length l)%nat.
Proof.
  induction l as [|x l IH]; simpl; [lia|].
  destruct (in_dec string_dec x l); simpl; lia.
Qed.

Lemma nodup_length_eq (l : list string) :
  List.length (nodup string_dec l) = List.length l -> NoDup l.
Proof.
  induction l as [|x l IH]; simpl; intros H; [constructor|].
  pose proof (nodup_length_le l).
  destruct (in_dec string_dec x l); simpl in H; [lia|].
  constructor; [assumption|]. apply IH. lia.
Qed.

Lemma firms_count_le (df : DataFrame) :
  (List.length (firms df) <= List.length df)%nat.
Proof.
  rewrite firms_length.
  pose proof (nodup_length_le (map unidad_economica df)) as H.
  now rewrite length_map in H.
Qed.

Lemma firms_count_lt (df : DataFrame) (f : string) :
  (2 <= establishments df f)%Z ->
  (List.length (firms df) < List.length df)%nat.
Proof.
  intros H.
  pose proof (firms_count_le df) as Hle.
  destruct (Nat.eq_dec (List.length (firms df)) (List.length df)) as [E|]; [|lia].
  exfalso. rewrite firms_length in E.
  rewrite <- (length_map unidad_economica df) in E.
  apply nodup_length_eq in E.
  rewrite (NoDup_count_occ string_dec) in E. specialize (E f).
  unfold establishments in H. lia.
Qed.

(* ================================================================== *)
(** * The claims *)

(* ------------------------------------------------------------------ *)
(** ** C1: the empty table *)

(** C1, as the program behaves: for an empty record collection
    [calculate_market_shares] raises nothing; it returns the empty share
    list together with [cr4 = 0].  No quotient is formed (the share list
    has no element), so no division by zero takes place. *)
Theorem calculate_market_shares_empty (df : DataFrame) :
  df = [] ->
  calculate_market_shares df = Returns ([], 0) /\
  forall e, calculate_market_shares df <> Raises e.
Proof.
  intros ->. split; [reflexivity|]. intros e H. discriminate H.
Qed.

Lemma calculate_market_shares_empty_witness :
  calculate_market_shares [] = Returns ([], 0) /\
  forall e, calculate_market_shares [] <> Raises e.
Proof.
  apply (calculate_market_shares_empty []). reflexivity.
Defined.

(** C1 as stated fails: on the empty table the call returns [([], 0)]
    and raises no exception at all. *)
Lemma calculate_market_shares_empty_returns :
  calculate_market_shares [] = Returns ([], 0) /\
  ~ (exists e, calculate_market_shares [] = Raises e).
Proof.
  split; [reflexivity|]. intros [e H]. discriminate H.
Qed.

(* ------------------------------------------------------------------ *)
(** ** C2: the ordered threshold rules *)

Ltac classifier_cases hhi cr4 n_firms :=
  unfold determine_market_structure, rule_monopoly, rule_oligopoly,
    rule_monopolistic;
  destruct (Qgt_bool hhi 7500) eqn:H7500;
  destruct (Qgt_bool cr4 (9 # 10)) eqn:H09;
  destruct (Qgt_bool hhi 2500) eqn:H2500;
  destruct (Qgt_bool cr4 (6 # 10)) eqn:H06;
  destruct (Qgt_bool hhi 1500) eqn:H1500;
  destruct (10 <? n_firms)%Z eqn:H10;
  repeat match goal with
    | H : Qgt_bool _ _ = true |- _ => apply Qgt_bool_iff in H
    | H : Qgt_bool _ _ = false |- _ => apply Qgt_bool_false_iff in H
    | H : (_ <? _)%Z = true |- _ => apply Z.ltb_lt in H
    | H : (_ <? _)%Z = false |- _ => apply Z.ltb_ge in H
    end;
  cbn [andb];
  unfold Monopolio, Oligopolio, Competencia_Monopolistica, Competencia_Perfecta.

(** C2: the classifier applies the four rules in order, the first rule
    that matches decides, and every comparison is strict: a value equal to
    a threshold does not satisfy the rule, so [(7500, 1.0, n)] is never
    Monopoly. *)
Theorem determine_market_structure_rules (hhi cr4 : Q) (n_firms : Z) :
  (rule_monopoly hhi cr4 ->
   determine_market_structure hhi cr4 n_firms = Monopolio) /\
  (~ rule_monopoly hhi cr4 -> rule_oligopoly hhi cr4 ->
   determine_market_structure hhi cr4 n_firms = Oligopolio) /\
  (~ rule_monopoly hhi cr4 -> ~ rule_oligopoly hhi cr4 ->
   rule_monopolistic hhi n_firms ->
   determine_market_structure hhi cr4 n_firms = Competencia_Monopolistica) /\
  (~ rule_monopoly hhi cr4 -> ~ rule_oligopoly hhi cr4 ->
   ~ rule_monopolistic hhi n_firms ->
   determine_market_structure hhi cr4 n_firms = Competencia_Perfecta) /\
  (hhi <= 7500 \/ cr4 <= 9 # 10 ->
   determine_market_structure hhi cr4 n_firms <> Monopolio) /\
  (hhi <= 2500 \/ cr4 <= 6 # 10 ->
   determine_market_structure hhi cr4 n_firms <> Oligopolio) /\
  (hhi <= 1500 \/ (n_firms <= 10)%Z ->
   determine_market_structure hhi cr4 n_firms <> Competencia_Monopolistica) /\
  determine_market_structure 7500 1 n_firms = Oligopolio /\
  determine_market_structure 10000 (9 # 10) n_firms = Oligopolio.
Proof.
  repeat match goal with |- _ /\ _ => split end;
    try reflexivity;
    classifier_cases hhi cr4 n_firms;
    intros; try reflexivity; try discriminate;
    exfalso;
    repeat match goal with
      | H : _ \/ _ |- _ => destruct H
      | H : ~ (_ /\ _) |- _ => apply H; split
      | H : _ /\ _ |- _ => destruct H
      end; try lra; try lia.
Qed.

Lemma determine_market_structure_rules_witness :
  determine_market_structure 3000 1 4 = Oligopolio.
Proof.
  destruct (determine_market_structure_rules 3000 1 4) as (_ & H & _).
  apply H.
  - unfold rule_monopoly. intros [H1 _]. revert H1. apply Qle_not_lt. discriminate.
  - unfold rule_oligopoly. split; reflexivity.
Defined.

(* ------------------------------------------------------------------ *)
(** ** C3: the buckets partition the activities *)

(** C3: for every table, [analyze_all_market_structures] returns a
    dictionary with exactly the four structure names as keys (a bucket may
    be empty), and the four buckets partition the distinct activities of
    the table: every activity of the table occurs exactly once in exactly
    one bucket, nothing else occurs in a bucket, and the buckets hold
    together as many activities as the table has distinct ones. *)
Theorem analyze_all_market_structures_partition (df : DataFrame) :
  exists l1 l2 l3 l4 : list string,
    analyze_all_market_structures df =
      Returns [(Monopolio, l1); (Oligopolio, l2);
               (Competencia_Monopolistica, l3); (Competencia_Perfecta, l4)] /\
    Permutation (l1 ++ l2 ++ l3 ++ l4) (unique (map clase_actividad df)) /\
    NoDup (l1 ++ l2 ++ l3 ++ l4) /\
    (forall a, In a (l1 ++ l2 ++ l3 ++ l4) <-> In a (map clase_actividad df)) /\
    (forall a, In a (map clase_actividad df) ->
               (count_occ string_dec l1 a + count_occ string_dec l2 a +
                count_occ string_dec l3 a + count_occ string_dec l4 a = 1)%nat) /\
    (List.length l1 + List.length l2 + List.length l3 + List.length l4 =
     List.length (nodup string_dec (map clase_actividad df)))%nat.
Proof.
  pose (f := structure_name df).
  pose (acts := unique (map clase_actividad df)).
  exists (bucket f Monopolio acts), (bucket f Oligopolio acts),
    (bucket f Competencia_Monopolistica acts),
    (bucket f Competencia_Perfecta acts).
  set (l1 := bucket f Monopolio acts).
  set (l2 := bucket f Oligopolio acts).
  set (l3 := bucket f Competencia_Monopolistica acts).
  set (l4 := bucket f Competencia_Perfecta acts).
  assert (Hperm : Permutation (l1 ++ l2 ++ l3 ++ l4) acts).
  { pose proof (buckets_partition structure_names f acts
                  structure_names_NoDup) as H.
    unfold classified, structure_names in H.
    cbn [map snd List.concat] in H. rewrite app_nil_r in H.
    apply H. intros a. apply determine_market_structure_name. }
  assert (Hnd : NoDup (l1 ++ l2 ++ l3 ++ l4)).
  { eapply Permutation_NoDup; [apply Permutation_sym, Hperm|apply unique_NoDup]. }
  assert (Hin : forall a, In a (l1 ++ l2 ++ l3 ++ l4)
                          <-> In a (map clase_actividad df)).
  { intros a. split; intros H.
    - apply unique_In. eapply Permutation_in; [exact Hperm|exact H].
    - apply unique_In in H.
      eapply Permutation_in; [apply Permutation_sym, Hperm|exact H]. }
  split; [apply analyze_all_market_structures_eq|].
  split; [exact Hperm|].
  split; [exact Hnd|].
  split; [exact Hin|].
  split.
  - intros a Ha. apply Hin in Ha.
    rewrite <- !count_occ_app, <- !app_assoc.
    apply (NoDup_count_occ' string_dec); assumption.
  - rewrite <- !length_app, <- !app_assoc, (Permutation_length Hperm).
    apply unique_length.
Qed.

Lemma analyze_all_market_structures_partition_witness :
  exists l1 l2 l3 l4 : list string,
    analyze_all_market_structures
      [mkRow "A" "x"; mkRow "B" "y"; mkRow "A" "x"; mkRow "C" "y"] =
      Returns [(Monopolio, l1); (Oligopolio, l2);
               (Competencia_Monopolistica, l3); (Competencia_Perfecta, l4)] /\
    (List.length l1 + List.length l2 + List.length l3 + List.length l4 = 2)%nat.
Proof.
  destruct (analyze_all_market_structures_partition
              [mkRow "A" "x"; mkRow "B" "y"; mkRow "A" "x"; mkRow "C" "y"])
    as (l1 & l2 & l3 & l4 & Hd & _ & _ & _ & _ & Hlen).
  exists l1, l2, l3, l4. split; [exact Hd|]. rewrite Hlen. reflexivity.
Defined.

(* ------------------------------------------------------------------ *)
(** ** C4: the shares *)

(** C4: for every non-empty table, [calculate_market_shares] returns one
    share per distinct firm name; the share of a firm is the number of its
    rows divided by the number of all rows; every share lies in [0, 1]
    (it is even positive); and the shares sum to 1 (exactly, in exact
    arithmetic, hence within any tolerance). *)
Theorem calculate_market_shares_shares (df : DataFrame) :
  df <> [] ->
  exists (shares : list Q) (cr4 : Q),
    calculate_market_shares df = Returns (shares, cr4) /\
    shares =
      map (fun f => inject_Z (establishments df f)
                    / inject_Z (Z.of_nat (List.length df)))
          (firms df) /\
    NoDup (firms df) /\
    (forall f, In f (firms df) <-> In f (map unidad_economica df)) /\
    List.length shares =
      List.length (nodup string_dec (map unidad_economica df)) /\
    Forall (fun s => 0 <= s /\ s <= 1) shares /\
    Forall (fun s => 0 < s) shares /\
    sum shares == 1 /\
    Qabs (sum shares - 1) <= 1 # 1000000000.
Proof.
  intros Hne.
  exists (shares_of df), (sum (firstn 4 (sorted_reverse (shares_of df)))).
  split; [apply calculate_market_shares_eq|].
  split; [reflexivity|].
  split; [apply firms_NoDup|].
  split; [apply firms_In|].
  split; [rewrite shares_of_length; apply firms_length|].
  split.
  { eapply Forall_impl; [|apply shares_of_range]. intros s [H0 H1].
    split; [lra|exact H1]. }
  split.
  { eapply Forall_impl; [|apply shares_of_range]. intros s [H0 _]. exact H0. }
  pose proof (shares_of_sum df Hne) as Hs.
  split; [exact Hs|].
  rewrite Hs. discriminate.
Qed.

Lemma calculate_market_shares_shares_witness :
  exists (shares : list Q) (cr4 : Q),
    calculate_market_shares [mkRow "A" "x"; mkRow "B" "x"; mkRow "A" "x"]
      = Returns (shares, cr4) /\
    sum shares == 1.
Proof.
  destruct (calculate_market_shares_shares
              [mkRow "A" "x"; mkRow "B" "x"; mkRow "A" "x"])
    as (shares & cr4 & H & _ & _ & _ & _ & _ & _ & Hs & _).
  - discriminate.
  - exists shares, cr4. split; assumption.
Defined.

(* ------------------------------------------------------------------ *)
(** ** C5: the four-firm concentration ratio *)




(* ------------------------------------------------------------------ *)
(** ** C6: the Herfindahl-Hirschman index *)

(** C6 as stated fails: the non-negative shares [1.0, 0.0] sum to 1 and
    have index 10000, yet they are not the single-firm share set [1.0]. *)
Lemma calculate_hhi_max_two_shares :
  Forall (fun s => 0 <= s) [1; 0] /\ sum [1; 0] == 1 /\
  calculate_hhi [1; 0] == 10000 /\
  ~ (exists s, [1; 0] = [s]).
Proof.
  split; [repeat constructor; discriminate|].
  split; [reflexivity|].
  split; [reflexivity|].
  intros [s H]. discriminate H.
Qed.

(** C6, as the program behaves: [calculate_hhi] is 10000 times the sum of
    the squared shares, and 0 on the empty sequence; for non-negative
    shares that sum to 1 the index lies in (0, 10000], and it is 10000
    exactly when a single share is not zero; when all shares are positive
    (as the shares of [calculate_market_shares] are) it is 10000 exactly
    when the share set is [1.0], that is, when the table has a single
    firm. *)
Theorem calculate_hhi_properties :
  (forall shares,
      calculate_hhi shares = sum (map (fun s => s ^ 2) shares) * 10000) /\
  calculate_hhi [] == 0 /\
  (forall shares,
      Forall (fun s => 0 <= s) shares -> sum shares == 1 ->
      0 < calculate_hhi shares /\ calculate_hhi shares <= 10000) /\
  (forall shares,
      Forall (fun s => 0 <= s) shares -> sum shares == 1 ->
      (calculate_hhi shares == 10000 <->
       List.length (nonzero_shares shares) = 1%nat)) /\
  (forall shares,
      Forall (fun s => 0 < s) shares -> sum shares == 1 ->
      (calculate_hhi shares == 10000 <-> exists s, shares = [s] /\ s == 1)) /\
  (forall df,
      df <> [] ->
      exists shares cr4,
        calculate_market_shares df = Returns (shares, cr4) /\
        (calculate_hhi shares == 10000 <->
         List.length (nodup string_dec (map unidad_economica df)) = 1%nat)).
Proof.
  assert (Hpos : forall shares,
             Forall (fun s => 0 < s) shares -> sum shares == 1 ->
             (calculate_hhi shares == 10000 <-> List.length shares = 1%nat)).
  { intros shares Hp Hs.
    rewrite (hhi_max_iff shares (Forall_pos_nonneg _ Hp) Hs).
    now rewrite nonzero_shares_id. }
  split; [reflexivity|].
  split; [reflexivity|].
  split; [exact hhi_range|].
  split; [exact hhi_max_iff|].
  split.
  - intros shares Hp Hs. rewrite (Hpos shares Hp Hs). split.
    + intros Hlen. destruct shares as [|s [|? ?]]; simpl in Hlen; try lia.
      exists s. split; [reflexivity|].
      rewrite sum_cons, sum_nil in Hs. lra.
    + intros (s & -> & _). reflexivity.
  - intros df Hne.
    exists (shares_of df), (sum (firstn 4 (sorted_reverse (shares_of df)))).
    split; [apply calculate_market_shares_eq|].
    rewrite Hpos.
    + now rewrite shares_of_length, firms_length.
    + eapply Forall_impl; [|apply shares_of_range]. intros s [H _]. exact H.
    + now apply shares_of_sum.
Qed.

Lemma calculate_hhi_properties_witness :
  0 < calculate_hhi [4 # 10; 3 # 10; 2 # 10; 1 # 10] /\
  calculate_hhi [4 # 10; 3 # 10; 2 # 10; 1 # 10] <= 10000.
Proof.
  destruct calculate_hhi_properties as (_ & _ & H & _).
  apply (H [4 # 10; 3 # 10; 2 # 10; 1 # 10]).
  - repeat constructor; discriminate.
  - reflexivity.
Defined.

(* ------------------------------------------------------------------ *)
(** ** Solvers: when the divisions succeed *)

Lemma inject_Z_eq0 (n : Z) : inject_Z n == 0 <-> n = 0%Z.
Proof.
  split; [|apply inject_Z_zero].
  intros H. unfold Qeq in H. simpl in H. lia.
Qed.

Lemma returns_Returns {A : Type} (a : A) : returns (Returns a).
Proof. now exists a. Qed.

Lemma monopoly_model_eq (a b c : Q) :
  ~ b == 0 ->
  monopoly_model a b c =
  Returns (Monopoly.mk ((a - c) / (2 * b))
             (a - b * ((a - c) / (2 * b)))
             ((a - b * ((a - c) / (2 * b)) - c) * ((a - c) / (2 * b)))).
Proof.
  intros Hb. unfold monopoly_model.
  rewrite py_div_nonzero; [reflexivity|].
  intros H. apply Hb. lra.
Qed.

Lemma stackelberg_model_eq (a b c : Q) :
  ~ b == 0 ->
  exists r, stackelberg_model a b c = Returns r /\
            Stackelberg.Q_total r == 3 * (a - c) / (4 * b).
Proof.
  intros Hb. unfold stackelberg_model.
  assert (H2b : ~ 2 * b == 0) by (intros H; apply Hb; lra).
  rewrite py_div_nonzero by exact H2b. cbn [bind].
  rewrite py_div_nonzero by exact H2b. cbn [bind].
  eexists. split; [reflexivity|]. simpl. field. exact Hb.
Qed.

Lemma perfect_competition_model_eq (a b c : Q) :
  ~ b == 0 ->
  perfect_competition_model a b c =
  Returns (PerfectCompetition.mk c ((a - c) / b)).
Proof.
  intros Hb. unfold perfect_competition_model.
  now rewrite py_div_nonzero.
Qed.

Lemma cournot_model_eq (n_firms : Z) (a b c : Q) :
  ~ b == 0 -> n_firms <> 0%Z -> n_firms <> (-1)%Z ->
  cournot_model n_firms a b c =
  let Q_total := inject_Z n_firms * (a - c) / (b * inject_Z (n_firms + 1)) in
  let P := a - b * Q_total in
  let q_individual := Q_total / inject_Z n_firms in
  Returns (Cournot.mk Q_total P q_individual ((P - c) * q_individual)).
Proof.
  intros Hb Hn0 Hn1. unfold cournot_model.
  rewrite py_div_nonzero.
  - cbn [bind]. rewrite py_div_nonzero; [reflexivity|].
    now apply inject_Z_nonzero.
  - intros H. apply Qmult_integral in H. destruct H as [H|H]; [tauto|].
    apply (proj1 (inject_Z_eq0 _)) in H. lia.
Qed.

Lemma cartel_model_eq (n_firms : Z) (a b c : Q) :
  ~ b == 0 -> n_firms <> 0%Z ->
  cartel_model n_firms a b c =
  let Q_total := (a - c) / (2 * b) in
  let P := a - b * Q_total in
  let profit_total := (P - c) * Q_total in
  Returns (Cartel.mk Q_total P (Q_total / inject_Z n_firms) profit_total
             (profit_total / inject_Z n_firms)).
Proof.
  intros Hb Hn. unfold cartel_model.
  rewrite py_div_nonzero by (intros H; apply Hb; lra). cbn [bind].
  rewrite py_div_nonzero by now apply inject_Z_nonzero. cbn [bind].
  rewrite py_div_nonzero by now apply inject_Z_nonzero. reflexivity.
Qed.

Lemma monopolistic_competition_model_eq (n_firms : Z) (a b c d : Q) :
  ~ b == 0 -> ~ d == -1 ->
  monopolistic_competition_model n_firms a b c d =
  let P := (a + c) / 2 in
  let q := (a - P) / (b * (1 + d)) in
  Returns (MonopolisticCompetition.mk P q (inject_Z n_firms * q)).
Proof.
  intros Hb Hd. unfold monopolistic_competition_model.
  rewrite py_div_nonzero by discriminate. cbn [bind].
  rewrite py_div_nonzero; [reflexivity|].
  intros H. apply Qmult_integral in H. destruct H as [H|H]; [tauto|].
  apply Hd. lra.
Qed.


(* ------------------------------------------------------------------ *)
(** ** C7: the solvers divide, and division by zero raises *)

(** C7 as stated fails: with [b = 0] the monopoly solver raises
    [ZeroDivisionError], and so does the Cournot solver with [n = 0]. *)
Lemma solvers_raise_on_zero :
  monopoly_model 100 0 20 = Raises ZeroDivisionError /\
  cournot_model 0 100 1 20 = Raises ZeroDivisionError /\
  ~ returns (monopoly_model 100 0 20).
Proof.
  split; [reflexivity|]. split; [reflexivity|].
  intros [r H]. discriminate H.
Qed.

Ltac zero_division :=
  unfold py_div;
  repeat (match goal with
          | |- context [Qeq_bool ?y 0] =>
              let E := fresh "E" in
              destruct (Qeq_bool y 0) eqn:E;
              [try reflexivity|apply Qeq_bool_neq in E; cbn [bind]]
          end).

(** C7, as the program behaves: every solver returns its result record
    whenever none of its divisors is zero, and raises [ZeroDivisionError]
    otherwise.  The divisors are [2b] (monopoly, Stackelberg, cartel), [b]
    (perfect competition), [b(n+1)] and [n] (Cournot), [n] (cartel) and
    [b(1+d)] (monopolistic competition); Bertrand has none and always
    returns. *)
Theorem solvers_return_unless_zero_divisor :
  (forall c, bertrand_model c = Returns (Bertrand.mk c 0)) /\
  (forall a b c,
      (~ b == 0 -> returns (monopoly_model a b c)) /\
      (b == 0 -> monopoly_model a b c = Raises ZeroDivisionError)) /\
  (forall a b c,
      (~ b == 0 -> returns (stackelberg_model a b c)) /\
      (b == 0 -> stackelberg_model a b c = Raises ZeroDivisionError)) /\
  (forall a b c,
      (~ b == 0 -> returns (perfect_competition_model a b c)) /\
      (b == 0 -> perfect_competition_model a b c = Raises ZeroDivisionError)) /\
  (forall n a b c,
      (~ b == 0 -> n <> 0%Z -> n <> (-1)%Z -> returns (cournot_model n a b c)) /\
      (b == 0 \/ n = 0%Z \/ n = (-1)%Z ->
       cournot_model n a b c = Raises ZeroDivisionError)) /\
  (forall n a b c,
      (~ b == 0 -> n <> 0%Z -> returns (cartel_model n a b c)) /\
      (b == 0 \/ n = 0%Z -> cartel_model n a b c = Raises ZeroDivisionError)) /\
  (forall n a b c d,
      (~ b == 0 -> ~ d == -1 ->
       returns (monopolistic_competition_model n a b c d)) /\
      (b == 0 \/ d == -1 ->
       monopolistic_competition_model n a b c d = Raises ZeroDivisionError)).
Proof.
  split; [reflexivity|].
  split.
  { intros a b c. split.
    - intros Hb. rewrite monopoly_model_eq by exact Hb. apply returns_Returns.
    - intros Hb. unfold monopoly_model. zero_division.
      exfalso. apply E. rewrite Hb. ring. }
  split.
  { intros a b c. split.
    - intros Hb. destruct (stackelberg_model_eq a b c Hb) as (r & -> & _).
      apply returns_Returns.
    - intros Hb. unfold stackelberg_model. zero_division.
      exfalso. apply E. rewrite Hb. ring. }
  split.
  { intros a b c. split.
    - intros Hb. rewrite perfect_competition_model_eq by exact Hb.
      apply returns_Returns.
    - intros Hb. unfold perfect_competition_model. zero_division.
      contradiction. }
  split.
  { intros n a b c. split.
    - intros Hb Hn0 Hn1. rewrite cournot_model_eq by assumption.
      apply returns_Returns.
    - intros H. unfold cournot_model. zero_division.
      exfalso. destruct H as [H|[H|H]].
      + apply E. rewrite H. ring.
      + apply E0. now apply inject_Z_zero.
      + apply E. subst n. simpl. ring. }
  split.
  { intros n a b c. split.
    - intros Hb Hn. rewrite cartel_model_eq by assumption.
      apply returns_Returns.
    - intros H. unfold cartel_model. zero_division.
      exfalso. destruct H as [H|H].
      + apply E. rewrite H. ring.
      + apply E0. now apply inject_Z_zero. }
  intros n a b c d. split.
  - intros Hb Hd. rewrite monopolistic_competition_model_eq by assumption.
    apply returns_Returns.
  - intros H. unfold monopolistic_competition_model. zero_division.
    exfalso. destruct H as [H|H].
    + apply E0. rewrite H. ring.
    + apply E0. rewrite H. ring.
Qed.

Lemma solvers_return_unless_zero_divisor_witness :
  returns (cournot_model 2 100 1 20) /\
  cartel_model 0 100 1 20 = Raises ZeroDivisionError.
Proof.
  destruct solvers_return_unless_zero_divisor
    as (_ & _ & _ & _ & Hcournot & Hcartel & _).
  split.
  - apply (Hcournot 2%Z 100 1 20); [discriminate|lia|lia].
  - apply (Hcartel 0%Z 100 1 20). right. reflexivity.
Defined.

(* ------------------------------------------------------------------ *)
(** ** C8: the Cournot formulas *)

(** C8: for [n > 0] and [b <> 0] the Cournot solver returns
    [Q = n(a-c)/(b(n+1))], [P = a - bQ], [q_i = Q/n] and
    [pi_i = (P-c) q_i]; for [n = 2], [a = 100], [b = 1], [c = 20] these are
    [Q = 160/3], [P = 140/3], [q_i = 80/3] and [pi_i = 6400/9], within
    0.001 of 53.333, 46.667 and 26.667 and within 0.1 of 711.1. *)
Theorem cournot_model_formulas :
  (forall (n : Z) (a b c : Q),
      (0 < n)%Z -> ~ b == 0 ->
      exists r,
        cournot_model n a b c = Returns r /\
        Cournot.Q_total r = inject_Z n * (a - c) / (b * inject_Z (n + 1)) /\
        Cournot.P_equilibrio r = a - b * Cournot.Q_total r /\
        Cournot.q_individual r = Cournot.Q_total r / inject_Z n /\
        Cournot.beneficio_individual r =
          (Cournot.P_equilibrio r - c) * Cournot.q_individual r) /\
  (exists r,
      cournot_model 2 100 1 20 = Returns r /\
      Cournot.Q_total r == 160 # 3 /\
      Cournot.P_equilibrio r == 140 # 3 /\
      Cournot.q_individual r == 80 # 3 /\
      Cournot.beneficio_individual r == 6400 # 9 /\
      Qabs (Cournot.Q_total r - (53333 # 1000)) <= 1 # 1000 /\
      Qabs (Cournot.P_equilibrio r - (46667 # 1000)) <= 1 # 1000 /\
      Qabs (Cournot.q_individual r - (26667 # 1000)) <= 1 # 1000 /\
      Qabs (Cournot.beneficio_individual r - (7111 # 10)) <= 1 # 10).
Proof.
  split.
  - intros n a b c Hn Hb.
    rewrite cournot_model_eq by (try assumption; lia).
    eexists. split; [reflexivity|]. simpl. repeat split.
  - eexists. split; [reflexivity|]. simpl.
    repeat split; try reflexivity; apply Qle_bool_iff; reflexivity.
Qed.

Lemma cournot_model_formulas_witness :
  exists r,
    cournot_model 2 100 1 20 = Returns r /\
    Cournot.Q_total r = inject_Z 2 * (100 - 20) / (1 * inject_Z (2 + 1)).
Proof.
  destruct (proj1 cournot_model_formulas 2%Z 100 1 20) as (r & Hr & HQ & _).
  - lia.
  - discriminate.
  - exists r. split; assumption.
Defined.

(* ------------------------------------------------------------------ *)
(** ** C9: degenerate economics *)




(* ------------------------------------------------------------------ *)
(** ** C10: the firm count given to the classifier *)

(** C10: for every activity, the count that
    [analyze_all_market_structures] gives to the classifier is the number
    of rows (establishments) of that activity.  The number of distinct
    firm names is never larger, and is smaller as soon as one firm has two
    establishments; so the rule "firm count > 10" is decided by the
    number of establishments.  For five firms with three establishments
    each the activity is classified as monopolistic competition (15 rows),
    whereas the count of distinct names (5) would give perfect
    competition. *)
Theorem classifier_receives_row_count :
  (forall (df : DataFrame) (activity : string),
      exists (shares : list Q) (cr4 : Q),
        calculate_market_shares (select_activity df activity)
          = Returns (shares, cr4) /\
        structure_of_activity df activity =
          Returns (determine_market_structure (calculate_hhi shares) cr4
                     (Z.of_nat (count_occ string_dec
                                  (map clase_actividad df) activity)))) /\
  (forall (df : DataFrame) (activity s : string),
      In activity (map clase_actividad df) ->
      structure_of_activity df activity = Returns s ->
      exists d l,
        analyze_all_market_structures df = Returns d /\
        dict_get d s = Some l /\ In activity l) /\
  (forall (df : DataFrame) (activity : string),
      (List.length (nodup string_dec
                      (map unidad_economica (select_activity df activity)))
       <= count_occ string_dec (map clase_actividad df) activity)%nat) /\
  (forall (df : DataFrame) (activity f : string),
      (2 <= establishments (select_activity df activity) f)%Z ->
      (List.length (nodup string_dec
                      (map unidad_economica (select_activity df activity)))
       < count_occ string_dec (map clase_actividad df) activity)%nat) /\
  (exists (shares : list Q) (cr4 : Q),
      calculate_market_shares five_firms_three_each = Returns (shares, cr4) /\
      List.length (nodup string_dec
                     (map unidad_economica five_firms_three_each)) = 5%nat /\
      List.length five_firms_three_each = 15%nat /\
      structure_of_activity five_firms_three_each "x"
        = Returns Competencia_Monopolistica /\
      determine_market_structure (calculate_hhi shares) cr4 5
        = Competencia_Perfecta).
Proof.
  split.
  { intros df activity.
    exists (shares_of (select_activity df activity)),
      (sum (firstn 4 (sorted_reverse (shares_of (select_activity df activity))))).
    split; [apply calculate_market_shares_eq|].
    rewrite structure_of_activity_eq. unfold structure_name.
    now rewrite select_activity_length. }
  split.
  { intros df activity s Hin Hs.
    rewrite structure_of_activity_eq in Hs. injection Hs as Hs.
    eexists _, _.
    split; [apply analyze_all_market_structures_eq|].
    split.
    - apply dict_get_classified. subst s. apply determine_market_structure_name.
    - apply filter_In. split.
      + now apply unique_In.
      + rewrite Hs. apply String.eqb_refl. }
  split.
  { intros df activity.
    rewrite <- select_activity_length, <- firms_length. apply firms_count_le. }
  split.
  { intros df activity f Hf.
    rewrite <- select_activity_length, <- firms_length.
    now apply (firms_count_lt _ f). }
  eexists _, _.
  split; [reflexivity|].
  repeat split; vm_compute; reflexivity.
Qed.

Lemma classifier_receives_row_count_witness :
  exists d l,
    analyze_all_market_structures five_firms_three_each = Returns d /\
    dict_get d Competencia_Monopolistica = Some l /\ In "x"%string l.
Proof.
  destruct classifier_receives_row_count as (_ & H & _).
  apply (H five_firms_three_each "x"%string Competencia_Monopolistica).
  - simpl. left. reflexivity.
  - vm_compute. reflexivity.
Defined.

(* ------------------------------------------------------------------ *)
(** ** Worked scenarios *)

(** Ten establishments of a single firm: one share of 1, index 10000,
    classified as a monopoly. *)
Example scenario_single_firm :
  let df := repeat (mkRow "A" "x") 10 in
  exists shares cr4,
    calculate_market_shares df = Returns (shares, cr4) /\
    List.length shares = 1%nat /\ sum shares == 1 /\ cr4 == 1 /\
    calculate_hhi shares == 10000 /\
    structure_of_activity df "x" = Returns Monopolio.
Proof.
  eexists _, _. split; [reflexivity|]. repeat split; vm_compute; reflexivity.
Qed.

(** Four firms with shares 0.4, 0.3, 0.2 and 0.1: index 3000, an
    oligopoly by the second rule. *)
Example scenario_four_firms :
  calculate_hhi [4 # 10; 3 # 10; 2 # 10; 1 # 10] == 3000 /\
  sum (firstn 4 (sorted_reverse [4 # 10; 3 # 10; 2 # 10; 1 # 10])) == 1 /\
  determine_market_structure 3000 1 4 = Oligopolio.
Proof.
  repeat split.
Qed.

Example scenario_perfect_competition :
  exists r,
    perfect_competition_model 100 1 20 = Returns r /\
    PerfectCompetition.P_equilibrio r == 20 /\
    PerfectCompetition.Q_total r == 80.
Proof.
  eexists. split; [reflexivity|]. split; reflexivity.
Qed.

Example scenario_monopoly :
  exists r,
    monopoly_model 100 1 20 = Returns r /\
    Monopoly.Q_total r == 40 /\ Monopoly.P_equilibrio r == 60 /\
    Monopoly.beneficio r == 1600.
Proof.
  eexists. split; [reflexivity|]. repeat split.
Qed.

(* ================================================================== *)
(** * Further properties of the solvers *)


Lemma Qsquare_nonneg (x : Q) : 0 <= x * x.
Proof. nra. Qed.

Lemma Qsquare_pos (x : Q) : ~ x == 0 -> 0 < x * x.
Proof.
  intros H. destruct (Qlt_le_dec x 0) as [Hneg|Hpos]; [nra|].
  apply Qle_lteq in Hpos. destruct Hpos as [Hpos|E]; [nra|].
  exfalso. apply H. now symmetry.
Qed.





(** X4: a Cournot market with a single firm is the monopoly: for
    [b <> 0], [cournot_model 1 a b c] returns the quantity, the price and
    the profit of [monopoly_model a b c]. *)
Theorem cournot_single_firm_is_monopoly (a b c : Q) :
  ~ b == 0 ->
  exists rc rm,
    cournot_model 1 a b c = Returns rc /\
    monopoly_model a b c = Returns rm /\
    Cournot.Q_total rc == Monopoly.Q_total rm /\
    Cournot.q_individual rc == Monopoly.Q_total rm /\
    Cournot.P_equilibrio rc == Monopoly.P_equilibrio rm /\
    Cournot.beneficio_individual rc == Monopoly.beneficio rm.
Proof.
  intros Hb.
  rewrite cournot_model_eq, monopoly_model_eq by (try assumption; lia).
  eexists _, _. split; [reflexivity|]. split; [reflexivity|]. simpl.
  change (inject_Z (1 + 1)) with 2. change (inject_Z 1) with 1.
  repeat split; field; exact Hb.
Qed.

Lemma cournot_single_firm_is_monopoly_witness :
  exists rc rm,
    cournot_model 1 100 1 20 = Returns rc /\
    monopoly_model 100 1 20 = Returns rm /\
    Cournot.P_equilibrio rc == Monopoly.P_equilibrio rm.
Proof.
  destruct (cournot_single_firm_is_monopoly 100 1 20)
    as (rc & rm & Hc & Hm & _ & _ & HP & _).
  - discriminate.
  - exists rc, rm. repeat split; assumption.
Defined.

Lemma stackelberg_model_value (a b c : Q) :
  ~ b == 0 ->
  stackelberg_model a b c =
  let q_leader := (a - c) / (2 * b) in
  let q_follower := (a - c - b * q_leader) / (2 * b) in
  let P := a - b * (q_leader + q_follower) in
  Returns (Stackelberg.mk q_leader q_follower (q_leader + q_follower) P
             ((P - c) * q_leader) ((P - c) * q_follower)).
Proof.
  intros Hb. unfold stackelberg_model.
  assert (H2b : ~ 2 * b == 0) by (intros H; apply Hb; lra).
  rewrite py_div_nonzero by exact H2b. cbn [bind].
  rewrite py_div_nonzero by exact H2b. reflexivity.
Qed.







(** X8: for [b <> 0] the perfect-competition solver prices at marginal
    cost and sells twice the quantity of the monopoly solver; the quantity
    is positive in a well-posed market ([a > c], [b > 0]). *)
Theorem perfect_competition_doubles_monopoly (a b c : Q) :
  ~ b == 0 ->
  exists rp rm,
    perfect_competition_model a b c = Returns rp /\
    monopoly_model a b c = Returns rm /\
    PerfectCompetition.P_equilibrio rp = c /\
    PerfectCompetition.Q_total rp == 2 * Monopoly.Q_total rm /\
    (c < a -> 0 < b -> 0 < PerfectCompetition.Q_total rp).
Proof.
  intros Hb.
  rewrite perfect_competition_model_eq, monopoly_model_eq by exact Hb.
  eexists _, _. split; [reflexivity|]. split; [reflexivity|]. simpl.
  split; [reflexivity|]. split; [field; exact Hb|].
  intros Hac Hpos. apply Qlt_shift_div_l; [exact Hpos|]. lra.
Qed.

Lemma perfect_competition_doubles_monopoly_witness :
  exists rp rm,
    perfect_competition_model 100 1 20 = Returns rp /\
    monopoly_model 100 1 20 = Returns rm /\
    PerfectCompetition.Q_total rp == 2 * Monopoly.Q_total rm.
Proof.
  destruct (perfect_competition_doubles_monopoly 100 1 20)
    as (rp & rm & Hp & Hm & _ & H & _).
  - discriminate.
  - exists rp, rm. repeat split; assumption.
Defined.







(* ================================================================== *)
(** * Further properties of the concentration metrics *)

Lemma Qlength_cons {A : Type} (x : A) (l : list A) :
  inject_Z (Z.of_nat (List.length (x :: l)))
  == inject_Z (Z.of_nat (List.length l)) + 1.
Proof.
  cbn [List.length]. rewrite Nat2Z.inj_succ, <- Z.add_1_r, inject_Z_plus.
  reflexivity.
Qed.

Lemma Qlength_nonneg {A : Type} (l : list A) :
  0 <= inject_Z (Z.of_nat (List.length l)).
Proof.
  change 0 with (inject_Z 0). rewrite <- Zle_Qle. lia.
Qed.

(** Cauchy-Schwarz for a list against the constant list of ones. *)
Lemma square_sum_le (l : list Q) :
  sum l * sum l <= inject_Z (Z.of_nat (List.length l)) * sumsq l.
Proof.
  induction l as [|x l IH].
  - rewrite sum_nil, sumsq_nil. simpl. lra.
  - rewrite Qlength_cons, sum_cons, sumsq_cons.
    pose proof (Qlength_nonneg l) as Hk.
    pose proof (sumsq_nonneg l) as Hq.
    set (k := inject_Z (Z.of_nat (List.length l))) in *.
    set (S := sum l) in *. set (T := sumsq l) in *.
    clearbody k S T.
    assert (Hmid : 2 * x * S <= k * (x * x) + T).
    { apply Qle_lteq in Hk. destruct Hk as [Hk|Hk].
      - pose proof (Qsquare_nonneg (k * x - S)) as Hsq.
        assert (Hm : k * (2 * x * S) <= k * (k * (x * x) + T)) by nra.
        apply Qmult_lt_0_le_reg_r with (z := k); [exact Hk|].
        rewrite !(Qmult_comm _ k). exact Hm.
      - rewrite <- Hk in *.
        assert (HS : S * S <= 0) by lra.
        pose proof (Qsquare_nonneg S) as HS'.
        assert (HS0 : S == 0).
        { destruct (Qeq_dec S 0) as [E|E]; [exact E|].
          apply Qsquare_pos in E. lra. }
        rewrite HS0. lra. }
    nra.
Qed.

Lemma sumsq_le_max (m : Q) (l : list Q) :
  Forall (fun s => 0 <= s /\ s <= m) l -> sumsq l <= m * sum l.
Proof.
  induction 1 as [|x l [Hx0 Hxm] _ IH].
  - rewrite sumsq_nil, sum_nil. lra.
  - rewrite sumsq_cons, sum_cons. nra.
Qed.

(* ================================================================== *)
(** * Further properties of the classification of an activity *)

Lemma structure_monopoly (hhi cr4 : Q) (n_firms : Z) :
  7500 < hhi -> 9 # 10 < cr4 ->
  determine_market_structure hhi cr4 n_firms = Monopolio.
Proof.
  intros H1 H2. classifier_cases hhi cr4 n_firms; try reflexivity;
    exfalso; lra.
Qed.

Lemma structure_concentrated (hhi cr4 : Q) (n_firms : Z) :
  2500 < hhi -> 6 # 10 < cr4 ->
  determine_market_structure hhi cr4 n_firms = Monopolio \/
  determine_market_structure hhi cr4 n_firms = Oligopolio.
Proof.
  intros H1 H2. classifier_cases hhi cr4 n_firms;
    try (left; reflexivity); try (right; reflexivity); exfalso; lra.
Qed.

Lemma structure_perfect (hhi cr4 : Q) (n_firms : Z) :
  hhi <= 1500 ->
  determine_market_structure hhi cr4 n_firms = Competencia_Perfecta.
Proof.
  intros H1. classifier_cases hhi cr4 n_firms; try reflexivity;
    exfalso; lra.
Qed.

Lemma structure_not_perfect (hhi cr4 : Q) (n_firms : Z) :
  1500 < hhi -> (10 < n_firms)%Z ->
  determine_market_structure hhi cr4 n_firms <> Competencia_Perfecta.
Proof.
  intros H1 H2. classifier_cases hhi cr4 n_firms; try discriminate;
    exfalso; try lra; lia.
Qed.

Lemma select_activity_In (df : DataFrame) (activity : string) (r : row) :
  In r (select_activity df activity) <->
  In r df /\ clase_actividad r = activity.
Proof.
  unfold select_activity. rewrite filter_In.
  now rewrite String.eqb_eq.
Qed.

Lemma select_activity_nonempty (df : DataFrame) (activity : string) :
  In activity (map clase_actividad df) -> select_activity df activity <> [].
Proof.
  intros Hin. apply in_map_iff in Hin. destruct Hin as (r & Hr & Hin).
  intros E.
  assert (H : In r (select_activity df activity))
    by (apply select_activity_In; split; assumption).
  rewrite E in H. exact H.
Qed.

Lemma cr4_few_shares (l : list Q) :
  (List.length l < 4)%nat -> sum (firstn 4 (sorted_reverse l)) == sum l.
Proof.
  intros Hlen. pose proof (sorted_reverse_perm l) as Hp.
  rewrite firstn_all2 by (rewrite <- (Permutation_length Hp); lia).
  symmetry. now apply sum_perm.
Qed.

Lemma shares_of_count (df : DataFrame) :
  List.length (shares_of df) =
  List.length (nodup string_dec (map unidad_economica df)).
Proof. now rewrite shares_of_length, firms_length. Qed.

Lemma shares_of_count_pos (df : DataFrame) :
  df <> [] -> (1 <= List.length (shares_of df))%nat.
Proof.
  intros Hne. pose proof (shares_of_sum df Hne) as Hs.
  destruct (shares_of df); [rewrite sum_nil in Hs; discriminate Hs|simpl; lia].
Qed.

(** X11: an activity served by a single firm is a monopoly.  When every
    row of an activity of the table carries the same firm name, the
    activity is classified as Monopolio, however many rows it has. *)
Theorem single_firm_activity_is_monopoly
  (df : DataFrame) (activity f : string) :
  In activity (map clase_actividad df) ->
  (forall r, In r df -> clase_actividad r = activity ->
             unidad_economica r = f) ->
  structure_of_activity df activity = Returns Monopolio.
Proof.
  intros Hin Hsame.
  rewrite structure_of_activity_eq. f_equal. unfold structure_name.
  set (dfa := select_activity df activity).
  assert (Hne : dfa <> []) by now apply select_activity_nonempty.
  assert (Hlen : List.length (shares_of dfa) = 1%nat).
  { pose proof (shares_of_count_pos dfa Hne) as Hpos.
    rewrite shares_of_length in *.
    assert (Hall : forall g, In g (firms dfa) -> g = f).
    { intros g Hg. apply firms_In, in_map_iff in Hg.
      destruct Hg as (r & <- & Hr).
      apply select_activity_In in Hr. destruct Hr as [Hr Hc]. now apply Hsame. }
    pose proof (firms_NoDup dfa) as Hnd.
    destruct (firms dfa) as [|g1 [|g2 l]]; simpl in *; try lia.
    exfalso. inversion Hnd as [|? ? Hnot _]; subst. apply Hnot.
    left. rewrite (Hall g1), (Hall g2); auto. }
  pose proof (shares_of_sum dfa Hne) as Hsum.
  destruct (shares_of dfa) as [|s [|? ?]]; simpl in Hlen; try lia.
  rewrite sum_cons, sum_nil in Hsum.
  apply structure_monopoly.
  - rewrite calculate_hhi_sumsq, sumsq_cons, sumsq_nil. nra.
  - cbn [sorted_reverse fold_right insert_desc firstn].
    rewrite sum_cons, sum_nil. lra.
Qed.

Lemma single_firm_activity_is_monopoly_witness :
  structure_of_activity
    [mkRow "A" "x"; mkRow "B" "y"; mkRow "A" "x"; mkRow "C" "y"] "x"
  = Returns Monopolio.
Proof.
  apply (single_firm_activity_is_monopoly _ "x"%string "A"%string).
  - simpl. left. reflexivity.
  - intros r Hr Hc. simpl in Hr.
    destruct Hr as [<-|[<-|[<-|[<-|[]]]]]; simpl in *;
      try reflexivity; discriminate Hc.
Defined.

(** X12: an activity with at most three distinct firms is never
    classified as competitive: its index is at least 10000/3 and its four
    largest shares are all its shares, so it is Monopolio or
    Oligopolio. *)
Theorem few_firms_activity_is_concentrated (df : DataFrame) (activity : string) :
  In activity (map clase_actividad df) ->
  (List.length (nodup string_dec
                  (map unidad_economica (select_activity df activity)))
   <= 3)%nat ->
  structure_of_activity df activity = Returns Monopolio \/
  structure_of_activity df activity = Returns Oligopolio.
Proof.
  intros Hin Hfew.
  rewrite structure_of_activity_eq. unfold structure_name.
  set (dfa := select_activity df activity) in *.
  assert (Hne : dfa <> []) by now apply select_activity_nonempty.
  rewrite <- shares_of_count in Hfew.
  pose proof (shares_of_sum dfa Hne) as Hsum.
  pose proof (square_sum_le (shares_of dfa)) as Hcs. rewrite Hsum in Hcs.
  assert (Hk : inject_Z (Z.of_nat (List.length (shares_of dfa))) <= 3).
  { change 3 with (inject_Z 3). rewrite <- Zle_Qle. lia. }
  pose proof (sumsq_nonneg (shares_of dfa)) as Hq.
  destruct (structure_concentrated
              (calculate_hhi (shares_of dfa))
              (sum (firstn 4 (sorted_reverse (shares_of dfa))))
              (Z.of_nat (List.length dfa))) as [H|H].
  - rewrite calculate_hhi_sumsq. nra.
  - rewrite cr4_few_shares by lia. rewrite Hsum. reflexivity.
  - left. now rewrite H.
  - right. now rewrite H.
Qed.

Lemma few_firms_activity_is_concentrated_witness :
  structure_of_activity
    [mkRow "A" "x"; mkRow "B" "x"; mkRow "C" "x"] "x" = Returns Monopolio \/
  structure_of_activity
    [mkRow "A" "x"; mkRow "B" "x"; mkRow "C" "x"] "x" = Returns Oligopolio.
Proof.
  apply (few_firms_activity_is_concentrated _ "x"%string).
  - simpl. left. reflexivity.
  - vm_compute. lia.
Defined.

(** X13: an activity in which no firm holds more than 15% of the
    establishments is classified as Competencia Perfecta: its index is at
    most 1500, which none of the first three rules accepts. *)
Theorem fragmented_activity_is_perfect (df : DataFrame) (activity : string) :
  (forall f, (100 * establishments (select_activity df activity) f
              <= 15 * Z.of_nat (List.length (select_activity df activity)))%Z) ->
  structure_of_activity df activity = Returns Competencia_Perfecta.
Proof.
  intros Hsmall.
  rewrite structure_of_activity_eq. f_equal. unfold structure_name.
  set (dfa := select_activity df activity) in *.
  apply structure_perfect.
  destruct dfa as [|r0 dfa0] eqn:Edfa.
  - vm_compute. discriminate.
  - rewrite <- Edfa in *.
    assert (Hne : dfa <> []) by (rewrite Edfa; discriminate).
    pose proof (shares_of_sum dfa Hne) as Hsum.
    assert (Hmax : Forall (fun s => 0 <= s /\ s <= 15 # 100) (shares_of dfa)).
    { unfold shares_of. apply Forall_map, Forall_forall. intros f Hf.
      destruct (establishments_bounds dfa f Hf) as [H0 H1].
      assert (Ht : 0 < inject_Z (Z.of_nat (List.length dfa)))
        by (apply inject_Z_pos; lia).
      split.
      - apply Qle_shift_div_l; [exact Ht|]. rewrite Qmult_0_l.
        apply Qlt_le_weak, inject_Z_pos. exact H0.
      - apply Qle_shift_div_r; [exact Ht|].
        specialize (Hsmall f).
        assert (Hq : 100 * inject_Z (establishments dfa f)
                     <= 15 * inject_Z (Z.of_nat (List.length dfa))).
        { change 100 with (inject_Z 100). change 15 with (inject_Z 15).
          rewrite <- !inject_Z_mult, <- Zle_Qle. exact Hsmall. }
        lra. }
    pose proof (sumsq_le_max _ _ Hmax) as Hle. rewrite Hsum in Hle.
    rewrite calculate_hhi_sumsq. lra.
Qed.

Lemma fragmented_activity_is_perfect_witness :
  structure_of_activity
    [mkRow "A" "x"; mkRow "B" "x"; mkRow "C" "x"; mkRow "D" "x";
     mkRow "E" "x"; mkRow "F" "x"; mkRow "G" "x"] "x"
  = Returns Competencia_Perfecta.
Proof.
  apply (fragmented_activity_is_perfect _ "x"%string).
  intros f. unfold establishments.
  assert (Hnd : NoDup (map unidad_economica
                         (select_activity
                            [mkRow "A" "x"; mkRow "B" "x"; mkRow "C" "x";
                             mkRow "D" "x"; mkRow "E" "x"; mkRow "F" "x";
                             mkRow "G" "x"] "x"))).
  { vm_compute. repeat constructor; simpl; intros H;
      repeat (destruct H as [H|H]; [discriminate H|]); exact H. }
  apply (NoDup_count_occ string_dec) with (x := f) in Hnd.
  change (List.length _) with 7%nat. lia.
Defined.

(** X14: an activity with at most six distinct firms and more than ten
    establishments is never classified as Competencia Perfecta: its index
    is at least 10000/6, above the 1500 of the third rule. *)
Theorem small_market_is_not_perfect (df : DataFrame) (activity : string) :
  (List.length (nodup string_dec
                  (map unidad_economica (select_activity df activity)))
   <= 6)%nat ->
  (10 < count_occ string_dec (map clase_actividad df) activity)%nat ->
  exists s,
    structure_of_activity df activity = Returns s /\
    s <> Competencia_Perfecta.
Proof.
  intros Hfew Hrows.
  rewrite structure_of_activity_eq. eexists. split; [reflexivity|].
  unfold structure_name.
  rewrite <- select_activity_length in Hrows.
  set (dfa := select_activity df activity) in *.
  assert (Hne : dfa <> []) by (destruct dfa; [simpl in Hrows; lia|discriminate]).
  rewrite <- shares_of_count in Hfew.
  pose proof (shares_of_sum dfa Hne) as Hsum.
  pose proof (square_sum_le (shares_of dfa)) as Hcs. rewrite Hsum in Hcs.
  assert (Hk : inject_Z (Z.of_nat (List.length (shares_of dfa))) <= 6).
  { change 6 with (inject_Z 6). rewrite <- Zle_Qle. lia. }
  pose proof (sumsq_nonneg (shares_of dfa)) as Hq.
  apply structure_not_perfect.
  - rewrite calculate_hhi_sumsq. nra.
  - lia.
Qed.

Lemma small_market_is_not_perfect_witness :
  exists s,
    structure_of_activity five_firms_three_each "x" = Returns s /\
    s <> Competencia_Perfecta.
Proof.
  apply (small_market_is_not_perfect five_firms_three_each "x"%string).
  - vm_compute. lia.
  - vm_compute. lia.
Defined.

(* ================================================================== *)
(** * Further properties of the market partitioner *)

(** X15: each bucket lists, in the order of their first appearance in the
    table, exactly the activities whose structure is the key of the
    bucket; no other key exists. *)
Theorem buckets_in_order_of_appearance (df : DataFrame) :
  exists d : dict,
    analyze_all_market_structures df = Returns d /\
    (forall s,
        In s [Monopolio; Oligopolio;
              Competencia_Monopolistica; Competencia_Perfecta] ->
        dict_get d s =
          Some (filter (fun a => String.eqb (structure_name df a) s)
                       (unique (map clase_actividad df)))) /\
    (forall s l a,
        dict_get d s = Some l ->
        (In a l <-> In a (map clase_actividad df) /\
                    structure_of_activity df a = Returns s)) /\
    (forall s,
        ~ In s [Monopolio; Oligopolio;
                Competencia_Monopolistica; Competencia_Perfecta] ->
        dict_get d s = None).
Proof.
  eexists. split; [apply analyze_all_market_structures_eq|].
  assert (Hget : forall s, In s structure_names ->
            dict_get (classified structure_names (structure_name df)
                        (unique (map clase_actividad df))) s =
            Some (filter (fun a => String.eqb (structure_name df a) s)
                         (unique (map clase_actividad df)))).
  { intros s Hs. now rewrite dict_get_classified. }
  assert (Hnone : forall s, ~ In s structure_names ->
            dict_get (classified structure_names (structure_name df)
                        (unique (map clase_actividad df))) s = None).
  { intros s Hs. unfold dict_get.
    destruct (find _ _) as [e|] eqn:E; [|reflexivity].
    exfalso. apply find_some in E. destruct E as [Hin Heq].
    apply String.eqb_eq in Heq. apply Hs. rewrite <- Heq.
    rewrite <- (classified_keys structure_names (structure_name df)
                  (unique (map clase_actividad df))).
    now apply in_map. }
  split; [exact Hget|]. split; [|exact Hnone].
  intros s l a Hl.
  destruct (in_dec string_dec s structure_names) as [Hs|Hs].
  - rewrite (Hget s Hs) in Hl. injection Hl as <-.
    rewrite filter_In, unique_In, String.eqb_eq, structure_of_activity_eq.
    split; intros [H1 H2]; split; try assumption; congruence.
  - rewrite (Hnone s Hs) in Hl. discriminate Hl.
Qed.

Lemma buckets_in_order_of_appearance_witness :
  exists d : dict,
    analyze_all_market_structures
      [mkRow "A" "y"; mkRow "A" "x"; mkRow "B" "y"; mkRow "C" "z"] = Returns d /\
    dict_get d Monopolio = Some ["x"; "z"]%string.
Proof.
  destruct (buckets_in_order_of_appearance
              [mkRow "A" "y"; mkRow "A" "x"; mkRow "B" "y"; mkRow "C" "z"])
    as (d & Hd & Hget & _).
  exists d. split; [exact Hd|].
  rewrite (Hget Monopolio) by (left; reflexivity).
  vm_compute. reflexivity.
Defined.

(** A table of group sizes is determined by the sizes it records. *)
Lemma group_sizes_unique (g g' : list (string * Z)) :
  keys_ascending g -> keys_ascending g' ->
  sizes_positive g -> sizes_positive g' ->
  (forall k, count_in g k = count_in g' k) ->
  g = g'.
Proof.
  unfold keys_ascending, sizes_positive.
  revert g'. induction g as [|[k m] g IH]; intros [|[k' m'] g'] Hs Hs' Hp Hp' Hc.
  - reflexivity.
  - exfalso. specialize (Hc k'). simpl in Hc. rewrite String.eqb_refl in Hc.
    inversion Hp'; subst. simpl in *. lia.
  - exfalso. specialize (Hc k). simpl in Hc. rewrite String.eqb_refl in Hc.
    inversion Hp; subst. simpl in *. lia.
  - simpl in Hs, Hs'.
    inversion Hs as [|? ? Hsg Hk]; subst.
    inversion Hs' as [|? ? Hsg' Hk']; subst.
    inversion Hp as [|? ? Hm Hpg]; subst.
    inversion Hp' as [|? ? Hm' Hpg']; subst.
    simpl in Hm, Hm'.
    assert (Ek : k = k').
    { destruct (String.compare k k') eqn:E.
      - now apply String.compare_eq_iff.
      - exfalso. pose proof (Hc k) as H. simpl in H.
        rewrite String.eqb_refl in H.
        destruct (String.eqb_spec k' k) as [->|_];
          [now apply slt_irrefl in E|].
        rewrite (count_in_below k g') in H; [lia|].
        eapply Forall_impl; [|exact Hk']. intros z Hz.
        eapply slt_trans; eassumption.
      - exfalso. apply compare_Gt_slt in E.
        pose proof (Hc k') as H. simpl in H.
        rewrite String.eqb_refl in H.
        destruct (String.eqb_spec k k') as [->|_];
          [now apply slt_irrefl in E|].
        rewrite (count_in_below k' g) in H; [lia|].
        eapply Forall_impl; [|exact Hk]. intros z Hz.
        eapply slt_trans; eassumption. }
    subst k'.
    assert (Em : m = m').
    { pose proof (Hc k) as H. simpl in H. now rewrite String.eqb_refl in H. }
    subst m'. f_equal.
    apply IH; try assumption.
    intros k0. destruct (string_dec k k0) as [<-|Hne].
    + now rewrite !count_in_below.
    + pose proof (Hc k0) as H. simpl in H.
      destruct (String.eqb_spec k k0); [contradiction|exact H].
Qed.

Lemma groupby_size_perm (names names' : list string) :
  Permutation names names' -> groupby_size names = groupby_size names'.
Proof.
  intros Hp.
  destruct (groupby_size_spec names) as (Hs & Hpos & Hc & _).
  destruct (groupby_size_spec names') as (Hs' & Hpos' & Hc' & _).
  apply group_sizes_unique; try assumption.
  intros k. rewrite Hc, Hc'. f_equal.
  now apply (Permutation_count_occ string_dec).
Qed.

Lemma Permutation_filter_rows {A : Type} (f : A -> bool) (l l' : list A) :
  Permutation l l' -> Permutation (filter f l) (filter f l').
Proof.
  induction 1 as [|x l l' _ IH|x y l|l1 l2 l3 _ IH1 _ IH2]; simpl.
  - apply perm_nil.
  - destruct (f x); [now apply perm_skip|exact IH].
  - destruct (f x), (f y); try apply Permutation_refl. apply perm_swap.
  - eapply perm_trans; eassumption.
Qed.

Lemma shares_of_perm (df df' : DataFrame) :
  Permutation df df' -> shares_of df = shares_of df'.
Proof.
  intros Hp.
  assert (Hn : Permutation (map unidad_economica df) (map unidad_economica df'))
    by now apply Permutation_map.
  unfold shares_of, firms, establishments.
  rewrite (groupby_size_perm _ _ Hn), (Permutation_length Hp).
  apply map_ext. intros f. do 3 f_equal.
  now apply (Permutation_count_occ string_dec).
Qed.

Lemma structure_name_perm (df df' : DataFrame) (activity : string) :
  Permutation df df' -> structure_name df activity = structure_name df' activity.
Proof.
  intros Hp. unfold structure_name.
  assert (Hsel : Permutation (select_activity df activity)
                             (select_activity df' activity))
    by now apply Permutation_filter_rows.
  now rewrite (shares_of_perm _ _ Hsel), (Permutation_length Hsel).
Qed.

(** X16: the order of the rows does not matter.  For two tables with the
    same rows in a different order, [calculate_market_shares] returns the
    same shares and the same [cr4], every activity gets the same
    structure, and each bucket of [analyze_all_market_structures] holds
    the same activities (possibly in another order). *)
Theorem row_order_is_irrelevant (df df' : DataFrame) :
  Permutation df df' ->
  calculate_market_shares df = calculate_market_shares df' /\
  (forall activity,
      structure_of_activity df activity = structure_of_activity df' activity) /\
  exists l1 l2 l3 l4 l1' l2' l3' l4' : list string,
    analyze_all_market_structures df =
      Returns [(Monopolio, l1); (Oligopolio, l2);
               (Competencia_Monopolistica, l3); (Competencia_Perfecta, l4)] /\
    analyze_all_market_structures df' =
      Returns [(Monopolio, l1'); (Oligopolio, l2');
               (Competencia_Monopolistica, l3'); (Competencia_Perfecta, l4')] /\
    Permutation l1 l1' /\ Permutation l2 l2' /\
    Permutation l3 l3' /\ Permutation l4 l4'.
Proof.
  intros Hp.
  split.
  { rewrite !calculate_market_shares_eq. now rewrite (shares_of_perm _ _ Hp). }
  split.
  { intros activity. rewrite !structure_of_activity_eq.
    now rewrite (structure_name_perm _ _ _ Hp). }
  assert (Hu : Permutation (unique (map clase_actividad df))
                           (unique (map clase_actividad df'))).
  { apply NoDup_Permutation; try apply unique_NoDup.
    intros a. rewrite !unique_In.
    split; apply Permutation_in;
      [|apply Permutation_sym]; now apply Permutation_map. }
  assert (Hb : forall s,
             Permutation
               (bucket (structure_name df) s (unique (map clase_actividad df)))
               (bucket (structure_name df') s (unique (map clase_actividad df')))).
  { intros s. unfold bucket.
    rewrite (filter_ext _ (fun a => String.eqb (structure_name df' a) s)).
    - now apply Permutation_filter_rows.
    - intros a. now rewrite (structure_name_perm _ _ _ Hp). }
  eexists _, _, _, _, _, _, _, _.
  split; [apply analyze_all_market_structures_eq|].
  split; [apply analyze_all_market_structures_eq|].
  repeat split; apply Hb.
Qed.

Lemma row_order_is_irrelevant_witness :
  calculate_market_shares [mkRow "B" "x"; mkRow "A" "x"; mkRow "B" "x"] =
  calculate_market_shares [mkRow "B" "x"; mkRow "B" "x"; mkRow "A" "x"].
Proof.
  apply (row_order_is_irrelevant
           [mkRow "B" "x"; mkRow "A" "x"; mkRow "B" "x"]
           [mkRow "B" "x"; mkRow "B" "x"; mkRow "A" "x"]).
  apply perm_skip, perm_swap.
Defined.

Lemma unique_from_app (l1 l2 seen : list string) :
  unique_from seen (l1 ++ l2) =
  (unique_from seen l1
     ++ unique_from (rev (unique_from seen l1) ++ seen) l2)%list.
Proof.
  revert seen. induction l1 as [|x l1 IH]; intros seen; simpl.
  - reflexivity.
  - destruct (existsb (String.eqb x) seen).
    + apply IH.
    + simpl. rewrite IH. do 3 f_equal.
      rewrite <- app_assoc. reflexivity.
Qed.

Lemma unique_from_disjoint (l s seen : list string) :
  (forall x, In x l -> ~ In x seen) ->
  unique_from (s ++ seen) l = unique_from s l.
Proof.
  revert s. induction l as [|x l IH]; intros s Hd; simpl; [reflexivity|].
  rewrite existsb_app.
  assert (E : existsb (String.eqb x) seen = false).
  { destruct (existsb (String.eqb x) seen) eqn:E; [|reflexivity].
    apply existsb_eqb_In in E. exfalso. apply (Hd x); [now left|exact E]. }
  rewrite E, orb_false_r.
  destruct (existsb (String.eqb x) s).
  - apply IH. intros y Hy. apply Hd. now right.
  - f_equal. apply (IH (x :: s)). intros y Hy. apply Hd. now right.
Qed.

Lemma unique_app_disjoint (l1 l2 : list string) :
  (forall x, In x l1 -> ~ In x l2) ->
  unique (l1 ++ l2) = (unique l1 ++ unique l2)%list.
Proof.
  intros Hd. unfold unique. rewrite unique_from_app, app_nil_r. f_equal.
  apply (unique_from_disjoint l2 [] (rev (unique_from [] l1))).
  intros x Hx Hin.
  apply in_rev in Hin. apply (proj1 (unique_In l1 x)) in Hin.
  exact (Hd x Hin Hx).
Qed.

Lemma select_activity_absent (df : DataFrame) (activity : string) :
  ~ In activity (map clase_actividad df) -> select_activity df activity = [].
Proof.
  intros Hnot. destruct (select_activity df activity) as [|r l] eqn:E;
    [reflexivity|].
  exfalso. apply Hnot.
  assert (H : In r (select_activity df activity)) by (rewrite E; now left).
  apply select_activity_In in H. destruct H as [H <-]. now apply in_map.
Qed.

Lemma structure_name_app_l (df1 df2 : DataFrame) (activity : string) :
  ~ In activity (map clase_actividad df2) ->
  structure_name (df1 ++ df2) activity = structure_name df1 activity.
Proof.
  intros H. unfold structure_name, select_activity. rewrite filter_app.
  fold (select_activity df1 activity). fold (select_activity df2 activity).
  now rewrite (select_activity_absent df2 activity H), app_nil_r.
Qed.

Lemma structure_name_app_r (df1 df2 : DataFrame) (activity : string) :
  ~ In activity (map clase_actividad df1) ->
  structure_name (df1 ++ df2) activity = structure_name df2 activity.
Proof.
  intros H. unfold structure_name, select_activity. rewrite filter_app.
  fold (select_activity df1 activity). fold (select_activity df2 activity).
  now rewrite (select_activity_absent df1 activity H).
Qed.

(** X17: tables with different activities are analysed independently.
    When no activity occurs in both [df1] and [df2], every activity keeps
    in [df1 ++ df2] the structure it has in its own table, and each bucket
    of the analysis of [df1 ++ df2] is the bucket of [df1] followed by the
    bucket of [df2]. *)
Theorem analysis_of_disjoint_tables (df1 df2 : DataFrame) :
  (forall a, In a (map clase_actividad df1) ->
             ~ In a (map clase_actividad df2)) ->
  exists l1 l2 l3 l4 m1 m2 m3 m4 : list string,
    analyze_all_market_structures df1 =
      Returns [(Monopolio, l1); (Oligopolio, l2);
               (Competencia_Monopolistica, l3); (Competencia_Perfecta, l4)] /\
    analyze_all_market_structures df2 =
      Returns [(Monopolio, m1); (Oligopolio, m2);
               (Competencia_Monopolistica, m3); (Competencia_Perfecta, m4)] /\
    analyze_all_market_structures (df1 ++ df2) =
      Returns [(Monopolio, l1 ++ m1); (Oligopolio, l2 ++ m2);
               (Competencia_Monopolistica, l3 ++ m3);
               (Competencia_Perfecta, l4 ++ m4)]%list.
Proof.
  intros Hd.
  assert (Hb : forall s,
             bucket (structure_name (df1 ++ df2)) s
                    (unique (map clase_actividad (df1 ++ df2))) =
             (bucket (structure_name df1) s (unique (map clase_actividad df1))
              ++ bucket (structure_name df2) s
                        (unique (map clase_actividad df2)))%list).
  { intros s. rewrite map_app, (unique_app_disjoint _ _ Hd).
    unfold bucket. rewrite filter_app. f_equal.
    - apply filter_ext_in. intros a Ha. apply (proj1 (unique_In _ _)) in Ha.
      now rewrite structure_name_app_l by now apply Hd.
    - apply filter_ext_in. intros a Ha. apply (proj1 (unique_In _ _)) in Ha.
      rewrite structure_name_app_r; [reflexivity|].
      intros H1. exact (Hd a H1 Ha). }
  eexists _, _, _, _, _, _, _, _.
  split; [apply analyze_all_market_structures_eq|].
  split; [apply analyze_all_market_structures_eq|].
  rewrite analyze_all_market_structures_eq.
  unfold classified, structure_names. cbn [map].
  now rewrite !Hb.
Qed.

Lemma analysis_of_disjoint_tables_witness :
  exists d,
    analyze_all_market_structures
      ([mkRow "A" "x"; mkRow "A" "x"] ++ [mkRow "B" "y"]) = Returns d /\
    dict_get d Monopolio = Some ["x"; "y"]%string.
Proof.
  destruct (analysis_of_disjoint_tables
              [mkRow "A" "x"; mkRow "A" "x"] [mkRow "B" "y"])
    as (l1 & l2 & l3 & l4 & m1 & m2 & m3 & m4 & H1 & H2 & H).
  - simpl. intros a [<-|[<-|[]]] [E|[]]; discriminate E.
  - vm_compute in H1. vm_compute in H2.
    injection H1 as <- <- <- <-. injection H2 as <- <- <- <-.
    eexists. split; [exact H|]. reflexivity.
Defined.

(* ================================================================== *)
(** * Properties of the computations of [main] *)

Lemma available_structures_In (names : list string) (f : string -> string)
  (acts : list string) (s : string) :
  In s (available_structures (classified names f acts)) <->
  In s names /\ exists a, In a acts /\ f a = s.
Proof.
  unfold available_structures, classified.
  rewrite in_map_iff. split.
  - intros ([k l] & <- & Hin). apply filter_In in Hin.
    destruct Hin as [Hin Hne]. apply in_map_iff in Hin.
    destruct Hin as (s & E & Hs). injection E as <- <-. simpl in *.
    split; [exact Hs|].
    destruct (bucket f s acts) as [|a l] eqn:Eb; [discriminate Hne|].
    exists a.
    assert (Ha : In a (bucket f s acts)) by (rewrite Eb; now left).
    apply filter_In in Ha. destruct Ha as [Ha Hf].
    apply String.eqb_eq in Hf. now split.
  - intros (Hs & a & Ha & Hf).
    exists (s, bucket f s acts). split; [reflexivity|].
    apply filter_In. split.
    + apply in_map_iff. now exists s.
    + simpl.
      assert (Hin : In a (bucket f s acts)).
      { apply filter_In. split; [exact Ha|]. now apply String.eqb_eq. }
      destruct (bucket f s acts); [contradiction|reflexivity].
Qed.

Lemma dict_item_classified (names : list string) (f : string -> string)
  (acts : list string) (s : string) (l : list string) :
  dict_item (classified names f acts) s = Returns l ->
  In s names /\ l = bucket f s acts.
Proof.
  unfold dict_item. intros H.
  destruct (in_dec string_dec s names) as [Hs|Hs].
  - rewrite dict_get_classified in H by exact Hs.
    injection H as <-. now split.
  - exfalso. unfold dict_get in H.
    destruct (find _ _) as [e|] eqn:E; [|discriminate H].
    apply find_some in E. destruct E as [Hin Heq].
    apply String.eqb_eq in Heq. apply Hs. rewrite <- Heq.
    rewrite <- (classified_keys names f acts). now apply in_map.
Qed.

(** X18: the structures offered for selection (line 155) are exactly the
    structures that some activity of the table has; each of them can be
    looked up and holds at least one activity; and none is offered exactly
    when the table has no row. *)
Theorem available_structures_spec (df : DataFrame) :
  exists ms : dict,
    analyze_all_market_structures df = Returns ms /\
    (forall s,
        In s (available_structures ms) <->
        exists a, In a (map clase_actividad df) /\
                  structure_of_activity df a = Returns s) /\
    (forall s,
        In s (available_structures ms) ->
        exists a l, dict_item ms s = Returns (a :: l)) /\
    (available_structures ms = [] <-> df = []).
Proof.
  eexists. split; [apply analyze_all_market_structures_eq|].
  assert (Hin : forall s,
             In s (available_structures
                     (classified structure_names (structure_name df)
                        (unique (map clase_actividad df)))) <->
             exists a, In a (map clase_actividad df) /\
                       structure_of_activity df a = Returns s).
  { intros s. rewrite available_structures_In. split.
    - intros (_ & a & Ha & Hf). exists a.
      apply (proj1 (unique_In _ _)) in Ha.
      rewrite structure_of_activity_eq. now rewrite Hf.
    - intros (a & Ha & Hf). rewrite structure_of_activity_eq in Hf.
      injection Hf as Hf. split.
      + rewrite <- Hf. apply determine_market_structure_name.
      + exists a. split; [now apply unique_In|exact Hf]. }
  split; [exact Hin|]. split.
  - intros s Hs. apply available_structures_In in Hs.
    destruct Hs as (Hs & a & Ha & Hf).
    unfold dict_item. rewrite dict_get_classified by exact Hs.
    assert (Hb : In a (bucket (structure_name df) s
                         (unique (map clase_actividad df)))).
    { apply filter_In. split; [exact Ha|]. now apply String.eqb_eq. }
    destruct (bucket _ _ _) as [|a0 l]; [contradiction|]. now exists a0, l.
  - split.
    + intros E. destruct df as [|r df]; [reflexivity|]. exfalso.
      assert (H : In (structure_name (r :: df) (clase_actividad r))
                     (available_structures
                        (classified structure_names (structure_name (r :: df))
                           (unique (map clase_actividad (r :: df)))))).
      { apply Hin. exists (clase_actividad r). split; [now left|].
        apply structure_of_activity_eq. }
      rewrite E in H. exact H.
    + intros ->. reflexivity.
Qed.

Lemma available_structures_spec_witness :
  exists ms a l,
    analyze_all_market_structures five_firms_three_each = Returns ms /\
    dict_item ms Competencia_Monopolistica = Returns (a :: l).
Proof.
  destruct (available_structures_spec five_firms_three_each)
    as (ms & Hms & Hin & Hitem & _).
  assert (H1 : In Competencia_Monopolistica (available_structures ms)).
  { apply (proj2 (Hin Competencia_Monopolistica)).
    exists "x"%string. split.
    - vm_compute. left. reflexivity.
    - vm_compute. reflexivity. }
  destruct (Hitem Competencia_Monopolistica H1) as (a & l & H).
  exists ms, a, l. split; assumption.
Defined.

(** X19: the metrics panel agrees with the selection.  For an activity
    picked from the bucket of the selected structure, lines 167-172
    compute the metrics of a non-empty table: the shares and [cr4] are
    those of [calculate_market_shares] on the rows of the activity, the
    firm count is the number of these rows and is at least 1, and the
    classifier applied to these metrics gives back the selected
    structure. *)
Theorem selected_activity_metrics
  (df : DataFrame) (ms : dict) (selected_structure selected_activity : string)
  (activities : list string) :
  analyze_all_market_structures df = Returns ms ->
  dict_item ms selected_structure = Returns activities ->
  In selected_activity activities ->
  exists (market_shares : list Q) (cr4 hhi : Q) (n_firms : Z),
    activity_metrics df selected_activity
      = Returns (market_shares, cr4, hhi, n_firms) /\
    calculate_market_shares (select_activity df selected_activity)
      = Returns (market_shares, cr4) /\
    hhi = calculate_hhi market_shares /\
    n_firms = Z.of_nat (count_occ string_dec (map clase_actividad df)
                                  selected_activity) /\
    (1 <= n_firms)%Z /\
    determine_market_structure hhi cr4 n_firms = selected_structure.
Proof.
  intros Hms Hitem Hin.
  assert (Ems : ms = classified structure_names (structure_name df)
                      (unique (map clase_actividad df))).
  { rewrite analyze_all_market_structures_eq in Hms.
    injection Hms as Hms. symmetry. exact Hms. }
  rewrite Ems in Hitem.
  apply dict_item_classified in Hitem. destruct Hitem as [_ ->].
  apply filter_In in Hin. destruct Hin as [Hin Hs].
  apply (proj1 (unique_In _ _)) in Hin. apply String.eqb_eq in Hs.
  unfold activity_metrics. rewrite calculate_market_shares_eq. cbn [bind].
  eexists _, _, _, _. split; [reflexivity|].
  split; [reflexivity|]. split; [reflexivity|].
  pose proof (select_activity_nonempty df selected_activity Hin) as Hne.
  split; [now rewrite select_activity_length|].
  split.
  { destruct (select_activity df selected_activity); [congruence|simpl; lia]. }
  exact Hs.
Qed.

Lemma selected_activity_metrics_witness :
  exists (market_shares : list Q) (cr4 hhi : Q) (n_firms : Z),
    activity_metrics five_firms_three_each "x"
      = Returns (market_shares, cr4, hhi, n_firms) /\
    determine_market_structure hhi cr4 n_firms = Competencia_Monopolistica.
Proof.
  destruct (selected_activity_metrics five_firms_three_each
              [(Monopolio, []); (Oligopolio, []);
               (Competencia_Monopolistica, ["x"%string]);
               (Competencia_Perfecta, [])]
              Competencia_Monopolistica "x"%string ["x"%string])
    as (shares & cr4 & hhi & n & H & _ & _ & _ & _ & Hs).
  - vm_compute. reflexivity.
  - vm_compute. reflexivity.
  - left. reflexivity.
  - exists shares, cr4, hhi, n. split; assumption.
Defined.

Lemma apply_models_returns (s : string) (n : Z) (a b c d : Q) :
  (1 <= n)%Z -> ~ b == 0 -> ~ d == -1 ->
  returns (apply_models s n a b c d).
Proof.
  intros Hn Hb Hd. unfold apply_models.
  destruct (String.eqb s Oligopolio).
  { rewrite cournot_model_eq by (try assumption; lia). cbn [bind].
    unfold bertrand_model. cbn [bind].
    rewrite stackelberg_model_value by exact Hb. cbn [bind].
    rewrite cartel_model_eq by (try assumption; lia). cbn [bind].
    apply returns_Returns. }
  destruct (String.eqb s Competencia_Perfecta).
  { rewrite perfect_competition_model_eq by exact Hb. apply returns_Returns. }
  destruct (String.eqb s Competencia_Monopolistica).
  { rewrite monopolistic_competition_model_eq by assumption.
    apply returns_Returns. }
  destruct (String.eqb s Monopolio).
  { rewrite monopoly_model_eq by exact Hb. apply returns_Returns. }
  apply returns_Returns.
Qed.

Lemma apply_models_zero_slope (s : string) (n : Z) (a b c d : Q) :
  In s structure_names -> b == 0 ->
  apply_models s n a b c d = Raises ZeroDivisionError.
Proof.
  intros Hs Hb. unfold apply_models.
  destruct (String.eqb_spec s Oligopolio) as [_|H1].
  { unfold cournot_model. rewrite py_div_zero; [reflexivity|].
    rewrite Hb. ring. }
  destruct (String.eqb_spec s Competencia_Perfecta) as [_|H2].
  { unfold perfect_competition_model. now rewrite py_div_zero. }
  destruct (String.eqb_spec s Competencia_Monopolistica) as [_|H3].
  { unfold monopolistic_competition_model.
    rewrite py_div_nonzero by discriminate. cbn [bind].
    rewrite py_div_zero; [reflexivity|]. rewrite Hb. ring. }
  destruct (String.eqb_spec s Monopolio) as [_|H4].
  { unfold monopoly_model. rewrite py_div_zero; [reflexivity|].
    rewrite Hb. ring. }
  exfalso. unfold structure_names in Hs. simpl in Hs.
  destruct Hs as [E|[E|[E|[E|[]]]]]; congruence.
Qed.

(** X20: what can go wrong after a selection.  For a structure picked
    from the result of the analysis and an activity picked from its
    bucket, the whole computation of [main] (lookup, metrics, models)
    returns whenever the slope [b] is not zero and the slider value [d] is
    not negative: no key is missing and the firm count, being at least 1,
    is never a zero divisor.  With [b = 0] it raises
    [ZeroDivisionError], whatever the structure. *)
Theorem analysis_fails_only_on_zero_slope
  (df : DataFrame) (ms : dict) (selected_structure selected_activity : string)
  (activities : list string) (a b c d : Q) :
  analyze_all_market_structures df = Returns ms ->
  dict_item ms selected_structure = Returns activities ->
  In selected_activity activities ->
  (~ b == 0 -> 0 <= d ->
   returns (analysis df selected_structure selected_activity a b c d)) /\
  (b == 0 ->
   analysis df selected_structure selected_activity a b c d
     = Raises ZeroDivisionError).
Proof.
  intros Hms Hitem Hin.
  assert (Ems : ms = classified structure_names (structure_name df)
                      (unique (map clase_actividad df))).
  { rewrite analyze_all_market_structures_eq in Hms.
    injection Hms as Hms. symmetry. exact Hms. }
  pose proof Hitem as Hitem'. rewrite Ems in Hitem'.
  apply dict_item_classified in Hitem'. destruct Hitem' as [Hs ->].
  apply filter_In in Hin. destruct Hin as [Hin _].
  apply (proj1 (unique_In _ _)) in Hin.
  pose proof (select_activity_nonempty df selected_activity Hin) as Hne.
  assert (Hn : (1 <= Z.of_nat (List.length
                                (select_activity df selected_activity)))%Z).
  { destruct (select_activity df selected_activity); [congruence|simpl; lia]. }
  unfold analysis. rewrite Hms. cbn [bind]. rewrite Hitem. cbn [bind].
  unfold activity_metrics. rewrite calculate_market_shares_eq. cbn [bind snd].
  split.
  - intros Hb Hd.
    destruct (apply_models_returns selected_structure
                (Z.of_nat (List.length (select_activity df selected_activity)))
                a b c d Hn Hb) as [r Hr].
    { intros E. lra. }
    rewrite Hr. cbn [bind]. apply returns_Returns.
  - intros Hb. now rewrite apply_models_zero_slope.
Qed.

Lemma analysis_fails_only_on_zero_slope_witness :
  returns (analysis five_firms_three_each Competencia_Monopolistica "x"
             100 1 20 (1 # 2)) /\
  analysis five_firms_three_each Competencia_Monopolistica "x"
    100 0 20 (1 # 2) = Raises ZeroDivisionError.
Proof.
  assert (Hms : analyze_all_market_structures five_firms_three_each =
                Returns [(Monopolio, []); (Oligopolio, []);
                         (Competencia_Monopolistica, ["x"%string]);
                         (Competencia_Perfecta, [])])
    by (vm_compute; reflexivity).
  assert (Hitem : dict_item [(Monopolio, []); (Oligopolio, []);
                             (Competencia_Monopolistica, ["x"%string]);
                             (Competencia_Perfecta, [])]
                            Competencia_Monopolistica
                  = Returns ["x"%string])
    by (vm_compute; reflexivity).
  assert (Hin : In "x"%string ["x"%string]) by (left; reflexivity).
  split.
  - apply (proj1 (analysis_fails_only_on_zero_slope _ _ _ _ _
                    100 1 20 (1 # 2) Hms Hitem Hin)); discriminate.
  - apply (proj2 (analysis_fails_only_on_zero_slope _ _ _ _ _
                    100 0 20 (1 # 2) Hms Hitem Hin)). reflexivity.
Defined.
